(** * Timetable grid and CSV export of [frontend/app.js]

    A shallow embedding of the two pieces of logic in [frontend/app.js]:
    [renderTimetable], which turns the day -> time -> label object returned
    by the backend into a table with the days as rows and the time slots as
    columns, and the click handler of [downloadBtn], which serialises the
    rendered table to CSV.  The handlers of the page around them follow:
    the list of subjects with its selection, the search box, and the
    requests for the subjects and for the timetable.

    Conventions of the embedding.
    - A JavaScript string is a [string] of 8-bit characters.  Characters
      outside ASCII (and so the non-ASCII white space that [trim] would
      strip) are not modelled.
    - A JavaScript object used as a map is the association list of its
      own properties in property order, the order in which [Object.keys]
      enumerates them.  An object of a JSON text inherits the properties
      of [Object.prototype], which a property read finds when the object
      has no property of that name.  [Object.prototype] is the one of the
      language in a browser, with nothing added and nothing removed.
    - A JavaScript number is an IEEE 754 binary64 value, the [spec_float]
      of the standard library at precision 53 and maximal exponent 1024,
      with the subtraction and the comparison of the library.  A decimal
      literal is rounded to the nearest number, ties to even.
    - [Array.prototype.sort] is a stable sort.  It is embedded as a stable
      insertion sort; for a comparator that is a total preorder every
      stable sort returns the same array.
    - A handler that awaits a response is two functions, one up to the
      request and one on what the request gives; what happens on the
      page in between is the handlers that run in between.  *)

From Stdlib Require Import String Ascii.
From Stdlib Require Import List ZArith NArith Bool Lia.
From Stdlib Require Import Permutation Sorted.
From Stdlib Require Import Floats.SpecFloat.
From Stdlib Require Import DecimalString.
Import ListNotations.

Local Open Scope list_scope.
Local Open Scope string_scope.

(** ** Strings *)

Module JsString.

Definition dquote : ascii := "034"%char.
Definition newline : ascii := "010"%char.
Definition comma : ascii := ","%char.

Definition str1 (c : ascii) : string := String c EmptyString.

(** [s.includes(c)] for a one-character pattern, the only use the source
    makes of it. *)
Fixpoint includes (pat : ascii) (s : string) : bool :=
  match s with
  | EmptyString => false
  | String c s' => Ascii.eqb c pat || includes pat s'
  end.

(** [s.split(sep)] for a one-character separator.  [split_from] returns
    the first segment and the list of the others, so that the array of
    [split] has at least one element by construction. *)
Fixpoint split_from (sep : ascii) (s : string) : string * list string :=
  match s with
  | EmptyString => (EmptyString, [])
  | String c s' =>
      let (x, r) := split_from sep s' in
      if Ascii.eqb c sep then (EmptyString, x :: r) else (String c x, r)
  end.

Definition split (sep : ascii) (s : string) : list string :=
  let (x, r) := split_from sep s in x :: r.

(** White space and line terminators of ECMAScript that are ASCII. *)
Definition isWhiteSpace (c : ascii) : bool :=
  Ascii.eqb c " " || Ascii.eqb c "009" || Ascii.eqb c "010"
  || Ascii.eqb c "011" || Ascii.eqb c "012" || Ascii.eqb c "013".

Fixpoint trimStart (s : string) : string :=
  match s with
  | EmptyString => EmptyString
  | String c s' => if isWhiteSpace c then trimStart s' else s
  end.

Fixpoint trimEnd (s : string) : string :=
  match s with
  | EmptyString => EmptyString
  | String c s' =>
      match trimEnd s' with
      | EmptyString => if isWhiteSpace c then EmptyString else str1 c
      | r => String c r
      end
  end.

Definition trim (s : string) : string := trimEnd (trimStart s).

(** [s.replace(c, by)] with a one-character string pattern: only the
    first occurrence is replaced. *)
Fixpoint replace (pat : ascii) (by_ : string) (s : string) : string :=
  match s with
  | EmptyString => EmptyString
  | String c s' =>
      if Ascii.eqb c pat then by_ ++ s' else String c (replace pat by_ s')
  end.

(** [s.replace(/c/g, by)]: every occurrence is replaced. *)
Fixpoint replaceAll (pat : ascii) (by_ : string) (s : string) : string :=
  match s with
  | EmptyString => EmptyString
  | String c s' =>
      if Ascii.eqb c pat then by_ ++ replaceAll pat by_ s'
      else String c (replaceAll pat by_ s')
  end.

(** [arr.join(sep)]. *)
Definition join (sep : string) (arr : list string) : string :=
  String.concat sep arr.

End JsString.

(** ** Numbers *)

Module JsNumber.

Definition number := spec_float.

Definition prec : Z := 53.
Definition emax : Z := 1024.

Definition NaN : number := S754_nan.

(** The Number value of the decimal [m * 10 ^ e10]: the quotient of two
    integers, rounded once to the nearest binary64, ties to even. *)
Definition ofDecimal (neg : bool) (m : N) (e10 : Z) : number :=
  match m with
  | N0 => S754_zero neg
  | Npos p =>
      let num := Z.to_pos (Zpos p * 10 ^ Z.max e10 0) in
      let den := Z.to_pos (10 ^ Z.max (- e10) 0) in
      SFdiv prec emax (S754_finite neg num 0) (S754_finite false den 0)
  end.

(** The Number value of an integer that a binary64 holds exactly. *)
Definition ofZ (z : Z) : number :=
  match z with
  | Z0 => S754_zero false
  | Zpos p => ofDecimal false (Npos p) 0
  | Zneg p => ofDecimal true (Npos p) 0
  end.

Definition digitValue (c : ascii) : option N :=
  let n := N_of_ascii c in
  if ((48 <=? n) && (n <=? 57))%N then Some (n - 48)%N else None.

Definition isDigit (c : ascii) : bool :=
  match digitValue c with Some _ => true | None => false end.

(** [DecimalDigits]: reads the longest run of digits at the front of [s];
    returns the value read so far, the number of digits and the rest. *)
Fixpoint readDigits (acc : N) (count : nat) (s : string)
  : N * nat * string :=
  match s with
  | EmptyString => (acc, count, s)
  | String c s' =>
      match digitValue c with
      | Some d => readDigits (acc * 10 + d)%N (S count) s'
      | None => (acc, count, s)
      end
  end.

(** [ExponentPart], optional: the exponent written at the front of [s],
    or 0 when [s] does not start with a well-formed one. *)
Definition exponentPart (s : string) : Z :=
  match s with
  | String c s' =>
      if Ascii.eqb c "e" || Ascii.eqb c "E" then
        let '(neg, s'') :=
          match s' with
          | String "+" t => (false, t)
          | String "-" t => (true, t)
          | _ => (false, s')
          end in
        let '(v, n, _) := readDigits 0 0 s'' in
        match n with
        | O => 0%Z
        | S _ => if neg then (- Z.of_N v)%Z else Z.of_N v
        end
      else 0%Z
  | EmptyString => 0%Z
  end.

(** The longest prefix of [s] that is a [StrUnsignedDecimalLiteral], and
    its Number value; [NaN] when no prefix is one. *)
Definition strUnsignedDecimalLiteral (neg : bool) (s : string) : number :=
  if String.prefix "Infinity" s then S754_infinity neg
  else
    let '(i, ni, s1) := readDigits 0 0 s in
    match s1 with
    | String "." s2 =>
        let '(m, nf, s3) := readDigits i 0 s2 in
        match ni, nf with
        | O, O => NaN
        | _, _ => ofDecimal neg m (exponentPart s3 - Z.of_nat nf)
        end
    | _ =>
        match ni with
        | O => NaN
        | S _ => ofDecimal neg i (exponentPart s1)
        end
    end.

(** The global [parseFloat]. *)
Definition parseFloat (s : string) : number :=
  match JsString.trimStart s with
  | String "+" r => strUnsignedDecimalLiteral false r
  | String "-" r => strUnsignedDecimalLiteral true r
  | t => strUnsignedDecimalLiteral false t
  end.

(** [x - y]. *)
Definition sub (x y : number) : number := SFsub prec emax x y.

(** How [Array.prototype.sort] reads the number [v] that its comparator
    returns: [Lt] when [v < 0], [Gt] when [v > 0] and [Eq] otherwise,
    which is for a zero and for [NaN]. *)
Definition sign (v : number) : comparison :=
  match SFcompare v (S754_zero false) with
  | Some c => c
  | None => Eq
  end.

(** The order of two numbers, [Eq] when one of them is [NaN]. *)
Definition order (x y : number) : comparison :=
  match SFcompare x y with
  | Some c => c
  | None => Eq
  end.

(** The numbers of the format: every number but those whose mantissa or
    exponent a binary64 cannot hold. *)
Definition isBinary64 (x : number) : bool := valid_binary prec emax x.

(** [x <= y] on numbers; false when one of them is [NaN]. *)
Definition leb (x y : number) : bool := SFleb x y.

Definition isNaN (x : number) : bool :=
  match x with
  | S754_nan => true
  | _ => false
  end.

(** The value of a string of digits read in base ten, from [acc]. *)
Fixpoint digitsValueFrom (acc : N) (s : string) : N :=
  match s with
  | EmptyString => acc
  | String c s' =>
      match digitValue c with
      | Some d => digitsValueFrom (acc * 10 + d)%N s'
      | None => acc
      end
  end.

Fixpoint allDigits (s : string) : bool :=
  match s with
  | EmptyString => true
  | String c s' => isDigit c && allDigits s'
  end.

(** The number that the literal [int.frac] denotes: the digits of [int]
    followed by those of [frac], the decimal point as many places from
    the right as [frac] has digits.  [decimalLiteral "10" "3"] is the
    number 10.3. *)
Definition decimalLiteral (int frac : string) : number :=
  ofDecimal false (digitsValueFrom 0 (int ++ frac))
            (- Z.of_nat (String.length frac)).

End JsNumber.

(** ** Arrays, sets and objects *)

Module JsArray.

Section Sort.
Context {A : Type}.
(** The comparator, reduced to the sign of the number it returns. *)
Variable compareFn : A -> A -> comparison.

Fixpoint insert (x : A) (sorted : list A) : list A :=
  match sorted with
  | [] => [x]
  | y :: rest =>
      match compareFn x y with
      | Gt => y :: insert x rest
      | _ => x :: sorted
      end
  end.

(** [arr.sort(compareFn)]: an element goes after the elements that the
    comparator puts before it and before the others, so elements that
    compare equal keep their order. *)
Definition sort (arr : list A) : list A := fold_right insert [] arr.

(** The comparator does not put [b] before [a]. *)
Definition notAfter (a b : A) : Prop := compareFn a b <> Gt.
End Sort.

(** [arr.indexOf(x)] on an array of strings, [-1] when absent. *)
Fixpoint indexOfFrom (i : Z) (arr : list string) (x : string) : Z :=
  match arr with
  | [] => (-1)%Z
  | y :: rest => if String.eqb y x then i else indexOfFrom (i + 1)%Z rest x
  end.

Definition indexOf (arr : list string) (x : string) : Z :=
  indexOfFrom 0%Z arr x.

(** Some occurrence of [x] comes before some occurrence of [y] in
    [arr]. *)
Definition precedes {A} (x y : A) (arr : list A) : Prop :=
  exists l1 l2 l3, arr = (l1 ++ x :: l2 ++ y :: l3)%list.

End JsArray.

Module JsSet.

(** A [Set] of strings: its elements in insertion order. *)
Definition t := list string.

Definition empty : t := [].

Definition has (x : string) (s : t) : bool :=
  existsb (String.eqb x) s.

Definition add (x : string) (s : t) : t :=
  if has x s then s else (s ++ [x])%list.

(** [Array.from(set)]. *)
Definition toArray (s : t) : list string := s.

End JsSet.

Module JsObject.

(** An object with own string-keyed properties of type [V], in property
    order. *)
Definition t (V : Type) := list (string * V).

Definition keys {V} (o : t V) : list string := map fst o.

(** The own property [k] of [o]; [None] when [o] has no such property
    of its own. *)
Fixpoint get {V} (o : t V) (k : string) : option V :=
  match o with
  | [] => None
  | (k', v) :: rest => if String.eqb k' k then Some v else get rest k
  end.

(** The names of the properties of [Object.prototype]. *)
Definition prototypeKeys : list string :=
  ["constructor"; "hasOwnProperty"; "isPrototypeOf";
   "propertyIsEnumerable"; "toLocaleString"; "toString"; "valueOf";
   "__proto__"; "__defineGetter__"; "__defineSetter__";
   "__lookupGetter__"; "__lookupSetter__"].

(** Whether a read of [o[k]] on an object without an own property [k]
    finds a property of [Object.prototype]. *)
Definition inherits (k : string) : bool :=
  existsb (String.eqb k) prototypeKeys.

End JsObject.

(** ** [renderTimetable] *)

Module Timetable.
Import JsString.

(** A value that a property access or [||] may produce.  [Inherited k]
    is the value of the property [k] of [Object.prototype]: a function,
    and for [__proto__] the object [Object.prototype] itself. *)
Inductive value : Type :=
| Undefined
| Str (s : string)
| Inherited (k : string).

Definition truthy (v : value) : bool :=
  match v with
  | Undefined => false
  | Str EmptyString => false
  | Str (String _ _) => true
  | Inherited _ => true
  end.

(** [a || b]. *)
Definition or (a b : value) : value := if truthy a then a else b.

(** The string a template literal inserts for a value.  The text of a
    native function is left to the engine: this is the text of V8, with
    the name of the function, which is [Object] for [constructor]. *)
Definition toString (v : value) : string :=
  match v with
  | Undefined => "undefined"
  | Str s => s
  | Inherited k =>
      if String.eqb k "__proto__" then "[object Object]"
      else
        "function " ++ (if String.eqb k "constructor" then "Object" else k)
        ++ "() { [native code] }"
  end.

(** The data of the generation response:
    [{ "Monday": { "10:00 - 11:00": "Subject (Room)", ... }, ... }]. *)
Definition ScheduleMapping := JsObject.t (JsObject.t string).

(** [const days = Object.keys(data)]. *)
Definition days (data : ScheduleMapping) : list string :=
  JsObject.keys data.

(** [data[day]] for a [day] of [Object.keys(data)], an own property of
    [data]; the code reads [data[day]] for these days only, and
    [JsObject.get] tells them from the others. *)
Definition slotsOf (data : ScheduleMapping) (day : string)
  : JsObject.t string :=
  match JsObject.get data day with
  | Some slots => slots
  | None => []
  end.

(** [timeSlots] after the two nested [forEach]. *)
Definition timeSlots (data : ScheduleMapping) : JsSet.t :=
  fold_left
    (fun set day =>
       fold_left (fun set time => JsSet.add time set)
                 (JsObject.keys (slotsOf data day)) set)
    (days data) JsSet.empty.

(** What a [try] block completes with. *)
Inductive completion (A : Type) : Type :=
| Normal (a : A)
| Throw.
Arguments Normal {A} a.
Arguments Throw {A}.

Definition tryCatch {A} (body : completion A) (handler : A) : A :=
  match body with
  | Normal a => a
  | Throw => handler
  end.

(** The inner [parseTime].  Element 0 of the array of [split] would be
    [undefined], and [.trim()] on it would throw, only for an empty
    array. *)
Definition parseTime (t : string) : JsNumber.number :=
  tryCatch
    (match split "-" t with
     | [] => Throw
     | first0 :: _ =>
         let first := trim first0 in
         let val := JsNumber.parseFloat (replace ":" "." first) in
         Normal val
     end)
    (JsNumber.ofZ 99).

(** [(a, b) => parseTime(a) - parseTime(b)], as the sort reads it. *)
Definition compareTimes (a b : string) : comparison :=
  JsNumber.sign (JsNumber.sub (parseTime a) (parseTime b)).

Definition sortedTimes (data : ScheduleMapping) : list string :=
  JsArray.sort compareTimes (JsSet.toArray (timeSlots data)).

Definition dayOrder : list string :=
  ["Monday"; "Tuesday"; "Wednesday"; "Thursday"; "Friday"; "Saturday";
   "Sunday"].

(** [(a, b) => dayOrder.indexOf(a) - dayOrder.indexOf(b)], as the sort
    reads it. *)
Definition compareDays (a b : string) : comparison :=
  (JsArray.indexOf dayOrder a - JsArray.indexOf dayOrder b ?= 0)%Z.

Definition sortedDays (data : ScheduleMapping) : list string :=
  JsArray.sort compareDays (days data).

(** [const cell = data[day][time] || '']: the read finds the own
    property [time] of [data[day]], or else the property of this name of
    [Object.prototype], or else [undefined]. *)
Definition cell (data : ScheduleMapping) (day time : string) : value :=
  or (match JsObject.get (slotsOf data day) time with
      | Some label => Str label
      | None =>
          if JsObject.inherits time then Inherited time else Undefined
      end)
     (Str "").

Definition placeholderHtml : string :=
  "<p class=" ++ str1 dquote ++ "placeholder" ++ str1 dquote
  ++ ">No data to display</p>".

(** The markup that [renderTimetable] assigns to
    [timetableContainer.innerHTML]. *)
Definition renderTimetable (data : ScheduleMapping) : string :=
  if Nat.eqb (List.length (days data)) 0 then placeholderHtml
  else
    let sortedTimes := sortedTimes data in
    let html :=
      "<table class=" ++ str1 dquote ++ "timetable" ++ str1 dquote
      ++ "><thead><tr><th>Day</th>" in
    let html :=
      fold_left (fun html time => html ++ "<th>" ++ time ++ "</th>")
                sortedTimes html in
    let html := html ++ "</tr></thead><tbody>" in
    let html :=
      fold_left
        (fun html day =>
           let html := html ++ "<tr><th>" ++ day ++ "</th>" in
           let html :=
             fold_left
               (fun html time =>
                  html ++ "<td>" ++ toString (cell data day time)
                  ++ "</td>")
               sortedTimes html in
           html ++ "</tr>")
        (sortedDays data) html in
    html ++ "</tbody></table>".

(** The grid that [renderTimetable] lays out, as a value: the
    [CanonicalGrid] of the specification.  [EmptyGrid] is the result for
    data without days, for which no table is built. *)
Inductive CanonicalGrid : Type :=
| EmptyGrid
| Grid (rows columns : list string) (cellAt : string -> string -> value).

Definition buildGrid (data : ScheduleMapping) : CanonicalGrid :=
  if Nat.eqb (List.length (days data)) 0 then EmptyGrid
  else Grid (sortedDays data) (sortedTimes data) (cell data).

Definition gridRows (g : CanonicalGrid) : list string :=
  match g with
  | EmptyGrid => []
  | Grid rows _ _ => rows
  end.

Definition gridColumns (g : CanonicalGrid) : list string :=
  match g with
  | EmptyGrid => []
  | Grid _ columns _ => columns
  end.

(** A label ["<start> - <end>"] whose start is ["HH:MM"], with any
    positive number of digits on each side of the colon. *)
Definition startsWithTime (label : string) : Prop :=
  exists hh mm rest,
    label = hh ++ ":" ++ mm ++ " - " ++ rest
    /\ hh <> "" /\ mm <> ""
    /\ JsNumber.allDigits hh = true /\ JsNumber.allDigits mm = true.

(** The columns [a] then [b] are in ascending order of key. *)
Definition keyLe (a b : string) : Prop :=
  JsNumber.leb (parseTime a) (parseTime b) = true.

(** A day name that [dayOrder] lists. *)
Definition recognized (day : string) : bool :=
  existsb (String.eqb day) dayOrder.

End Timetable.

(** ** The CSV export *)

Module Csv.
Import JsString.

(** The replacement text of the handler: two quotes. *)
Definition twoQuotes : string := String dquote (String dquote EmptyString).

(** The text of a field after the handler has escaped it. *)
Definition escapeField (text : string) : string :=
  if includes comma text || includes dquote text then
    str1 dquote ++ replaceAll dquote twoQuotes text ++ str1 dquote
  else text.

(** The callback of [Array.from(cells).map]: from the [textContent] of a
    cell to the field written in the file. *)
Definition cellField (textContent : string) : string :=
  let text := trim textContent in
  escapeField text.

(** The click handler of [downloadBtn], on the [textContent] of the
    cells of each row of the table, when there is a table: the content
    of the file offered for download.  Without a table the handler
    returns at once. *)
Definition downloadCsv (table : option (list (list string)))
  : option string :=
  match table with
  | None => None
  | Some rows =>
      Some (fold_left
              (fun csv row =>
                 let rowData := map cellField row in
                 csv ++ join "," rowData ++ str1 newline)
              rows "")
  end.

(** The serializer of the specification: the handler's loop on rows of
    fields that are trimmed already. *)
Definition toCsv (displayRows : list (list string)) : string :=
  fold_left
    (fun csv row =>
       let rowData := map escapeField row in
       csv ++ join "," rowData ++ str1 newline)
    displayRows "".

(** *** Reading a CSV document back

    The reader that the specification describes for the round trip:
    rows are split on newlines, fields on the commas outside quotes, and
    a quoted field loses its quotes and has its doubled quotes undone. *)

(** The lines of a document: the segments between newlines, without the
    empty segment after a final newline. *)
Definition splitRows (doc : string) : list string :=
  let segments := split newline doc in
  match rev segments with
  | EmptyString :: others => rev others
  | _ => segments
  end.

(** Splits a line on the commas outside quotes; [inQuotes] tells whether
    the position is inside a quoted field.  Returns the first field and
    the list of the others. *)
Fixpoint splitFieldsFrom (inQuotes : bool) (line : string)
  : string * list string :=
  match line with
  | EmptyString => (EmptyString, [])
  | String c line' =>
      if Ascii.eqb c dquote then
        let (x, r) := splitFieldsFrom (negb inQuotes) line' in
        (String c x, r)
      else if Ascii.eqb c comma && negb inQuotes then
        let (x, r) := splitFieldsFrom false line' in
        (EmptyString, x :: r)
      else
        let (x, r) := splitFieldsFrom inQuotes line' in
        (String c x, r)
  end.

Definition splitFields (line : string) : list string :=
  let (x, r) := splitFieldsFrom false line in x :: r.

(** The content of a quoted field after its opening quote: a doubled
    quote stands for one quote, a single quote closes the field. *)
Fixpoint unescapeQuoted (s : string) : string :=
  match s with
  | EmptyString => EmptyString
  | String c s' =>
      if Ascii.eqb c dquote then
        match s' with
        | String c' s'' =>
            if Ascii.eqb c' dquote then String dquote (unescapeQuoted s'')
            else EmptyString
        | EmptyString => EmptyString
        end
      else String c (unescapeQuoted s')
  end.

Definition unescapeField (raw : string) : string :=
  match raw with
  | String c body => if Ascii.eqb c dquote then unescapeQuoted body else raw
  | EmptyString => raw
  end.

Definition parseCsv (doc : string) : list (list string) :=
  map (fun line => map unescapeField (splitFields line)) (splitRows doc).

(** The number of newline characters of a string. *)
Fixpoint countNewlines (s : string) : nat :=
  match s with
  | EmptyString => 0
  | String c s' =>
      (if Ascii.eqb c newline then 1 else 0) + countNewlines s'
  end.

End Csv.

(** ** Inputs used in examples *)

Module Examples.
Import JsString Timetable.

(** Example 1 of the specification. *)
Definition tuesdayMonday : ScheduleMapping :=
  [("Tuesday", [("9:00 - 10:00", "Math (R1)")]);
   ("Monday", [("10:00 - 11:00", "Phys (R2)")])].

(** A day name that [dayOrder] does not list, after one that it lists. *)
Definition sundayFunday : ScheduleMapping :=
  [("Sunday", [("9:00 - 10:00", "Math (R1)")]);
   ("Funday", [("9:00 - 10:00", "Phys (R2)")])].

(** A label without a start time, before one with a start time. *)
Definition malformedFirst : ScheduleMapping :=
  [("Monday", [("TBA", "Math (R1)"); ("9:00 - 10:00", "Phys (R2)")])].

(** Two days with different slots. *)
Definition sparse : ScheduleMapping :=
  [("Monday", [("10:45 - 11:30", "Phys (R2)"); ("10:30 - 10:45", "")]);
   ("Friday", [("9:00 - 10:00", "Math (R1)")])].

(** The cell text of example 4, with quotes around the B. *)
Definition roomB : string :=
  "Room " ++ str1 dquote ++ "B" ++ str1 dquote.

(** The same text as a CSV field: wrapped in quotes, each inner quote
    doubled. *)
Definition roomBEscaped : string :=
  str1 dquote ++ "Room " ++ str1 dquote ++ str1 dquote ++ "B"
  ++ str1 dquote ++ str1 dquote ++ str1 dquote.

(** A slot on one day whose label names a property of
    [Object.prototype]. *)
Definition inheritedSlot : ScheduleMapping :=
  [("Monday", [("constructor", "Math (R1)")]);
   ("Tuesday", [("9:00 - 10:00", "Phys (R2)")])].

(** A field of two lines. *)
Definition twoLines : string := "Math" ++ str1 newline ++ "Lab".

End Examples.

(** ** The subject list, the search box and the two requests *)

Module Page.
Import JsString.

(** [c.toLowerCase()] on a character of ASCII; the subjects and the value
    of the search box are read as ASCII text. *)
Definition toLowerChar (c : ascii) : ascii :=
  let n := N_of_ascii c in
  if ((65 <=? n) && (n <=? 90))%N then ascii_of_N (n + 32) else c.

Fixpoint toLowerCase (s : string) : string :=
  match s with
  | EmptyString => EmptyString
  | String c s' => String (toLowerChar c) (toLowerCase s')
  end.

(** Text of ASCII characters, on which [toLowerCase] is what the
    language does: each letter lowered by itself. *)
Fixpoint isAscii (s : string) : bool :=
  match s with
  | EmptyString => true
  | String c s' => (N_of_ascii c <? 128)%N && isAscii s'
  end.

(** [s.startsWith(pat)]. *)
Fixpoint startsWith (pat s : string) : bool :=
  match pat, s with
  | EmptyString, _ => true
  | String _ _, EmptyString => false
  | String p pat', String c s' => Ascii.eqb p c && startsWith pat' s'
  end.

(** [s.includes(pat)] for a pattern of any length: [pat] starts at some
    position of [s]. *)
Fixpoint includesText (pat s : string) : bool :=
  startsWith pat s
  || match s with
     | EmptyString => false
     | String _ s' => includesText pat s'
     end.

(** The text a template literal inserts for a count. *)
Definition numberToString (n : nat) : string :=
  NilEmpty.string_of_uint (Nat.to_uint n).

(** [set.delete(x)]. *)
Definition setDelete (x : string) (s : JsSet.t) : JsSet.t :=
  filter (fun y => negb (String.eqb x y)) s.

(** A [div.subject-item] of [subjectsList]: its subject, whether its
    class list has [selected], and its [style.display]. *)
Record item : Type := Item {
  subject : string;
  selected : bool;
  display : string
}.

(** The part of the page that the handlers read and write.  A [display]
    field is the [style.display] of the element of that name.
    [subjectMapping], which is written once and never read, is left
    out. *)
Record state : Type := State {
  items : list item;
  selectedSubjects : JsSet.t;
  selectedCount : string;
  generateDisabled : bool;
  generateHtml : string;
  subjectsLoading : string;
  subjectsPlaceholder : string;
  subjectsPlaceholderText : string;
  subjectsContainer : string;
  timetableContainer : string;
  resultsSection : string;
  alerts : list string
}.

Definition setItems (v : list item) (st : state) : state :=
  State v (selectedSubjects st) (selectedCount st) (generateDisabled st)
        (generateHtml st) (subjectsLoading st) (subjectsPlaceholder st)
        (subjectsPlaceholderText st) (subjectsContainer st)
        (timetableContainer st) (resultsSection st) (alerts st).

Definition setSelectedSubjects (v : JsSet.t) (st : state) : state :=
  State (items st) v (selectedCount st) (generateDisabled st)
        (generateHtml st) (subjectsLoading st) (subjectsPlaceholder st)
        (subjectsPlaceholderText st) (subjectsContainer st)
        (timetableContainer st) (resultsSection st) (alerts st).

Definition setCount (text : string) (disabled : bool) (st : state)
  : state :=
  State (items st) (selectedSubjects st) text disabled
        (generateHtml st) (subjectsLoading st) (subjectsPlaceholder st)
        (subjectsPlaceholderText st) (subjectsContainer st)
        (timetableContainer st) (resultsSection st) (alerts st).

Definition setGenerate (disabled : bool) (html : string) (st : state)
  : state :=
  State (items st) (selectedSubjects st) (selectedCount st) disabled
        html (subjectsLoading st) (subjectsPlaceholder st)
        (subjectsPlaceholderText st) (subjectsContainer st)
        (timetableContainer st) (resultsSection st) (alerts st).

Definition setSubjectsPanel (loading placeholder container : string)
           (st : state) : state :=
  State (items st) (selectedSubjects st) (selectedCount st)
        (generateDisabled st) (generateHtml st) loading placeholder
        (subjectsPlaceholderText st) container
        (timetableContainer st) (resultsSection st) (alerts st).

Definition setPlaceholderText (text : string) (st : state) : state :=
  State (items st) (selectedSubjects st) (selectedCount st)
        (generateDisabled st) (generateHtml st) (subjectsLoading st)
        (subjectsPlaceholder st) text (subjectsContainer st)
        (timetableContainer st) (resultsSection st) (alerts st).

Definition setResults (html shown : string) (st : state) : state :=
  State (items st) (selectedSubjects st) (selectedCount st)
        (generateDisabled st) (generateHtml st) (subjectsLoading st)
        (subjectsPlaceholder st) (subjectsPlaceholderText st)
        (subjectsContainer st) html shown (alerts st).

(** [alert(message)]: the messages shown so far, the last one last. *)
Definition alert (message : string) (st : state) : state :=
  State (items st) (selectedSubjects st) (selectedCount st)
        (generateDisabled st) (generateHtml st) (subjectsLoading st)
        (subjectsPlaceholder st) (subjectsPlaceholderText st)
        (subjectsContainer st) (timetableContainer st) (resultsSection st)
        (alerts st ++ [message])%list.

(** How a block of statements ends, and the page at that point. *)
Inductive run : Type :=
| Done (st : state)
| Thrown (st : state).

Definition pageOf (r : run) : state :=
  match r with
  | Done st => st
  | Thrown st => st
  end.

(** The text of [selectedCount] for a count. *)
Definition countText (count : nat) : string :=
  numberToString count ++ " subject"
  ++ (if Nat.eqb count 1 then "" else "s") ++ " selected".

Definition updateSelectedCount (st : state) : state :=
  let count := List.length (selectedSubjects st) in
  setCount (countText count) (Nat.eqb count 0) st.

(** [renderSubjects(subjects)]; [None] stands for a value without
    [forEach], on which the call throws after the list and the set have
    been cleared.  A new item has no [selected] class and no [display]
    style. *)
Definition renderSubjects (subjects : option (list string)) (st : state)
  : run :=
  let st := setItems [] st in
  let st := setSelectedSubjects JsSet.empty st in
  match subjects with
  | None => Thrown st
  | Some subjects =>
      let st :=
        fold_left
          (fun st subject =>
             setItems (items st ++ [Item subject false ""])%list st)
          subjects st in
      Done (updateSelectedCount st)
  end.

(** The array with its element at [i] replaced. *)
Fixpoint replaceAt {A} (i : nat) (x : A) (l : list A) : list A :=
  match l, i with
  | [], _ => []
  | _ :: rest, O => x :: rest
  | y :: rest, S i' => y :: replaceAt i' x rest
  end.

(** The click handler of the item at position [i] of the list; without
    such an item there is nothing to click. *)
Definition clickItem (i : nat) (st : state) : state :=
  match nth_error (items st) i with
  | None => st
  | Some it =>
      let now := negb (selected it) in
      let st :=
        setItems (replaceAt i (Item (subject it) now (display it))
                            (items st)) st in
      let st :=
        if now then
          setSelectedSubjects (JsSet.add (subject it) (selectedSubjects st))
                              st
        else
          setSelectedSubjects (setDelete (subject it) (selectedSubjects st))
                              st in
      updateSelectedCount st
  end.

(** The [input] handler of [subjectSearch], on the value of the box. *)
Definition search (value : string) (st : state) : state :=
  let query := toLowerCase value in
  setItems
    (map (fun it =>
            let subject' := toLowerCase (subject it) in
            Item (subject it) (selected it)
                 (if includesText query subject' then "block" else "none"))
         (items st))
    st.

(** What a [fetch] and the reading of its JSON body give: the request
    fails; the status is not ok; the body is no JSON text, or it is
    [null], so that reading a property of it throws; or the body is
    read. *)
Inductive response (A : Type) : Type :=
| Rejected
| NotOk
| NoBody
| Body (a : A).
Arguments Rejected {A}.
Arguments NotOk {A}.
Arguments NoBody {A}.
Arguments Body {A} a.

(** The click handler of [fetchSubjectsBtn] up to its [fetch]. *)
Definition fetchSubjectsStart (st : state) : state :=
  setSubjectsPanel "block" "none" "none" st.

Definition subjectsFailedText : string :=
  "❌ Failed to load subjects. Please try again.".

(** The rest of the handler, on the response; the body is reduced to its
    [subjects]: an array of strings, or [None] for a value without
    [forEach]. *)
Definition fetchSubjectsFinish (r : response (option (list string)))
           (st : state) : state :=
  let tried :=
    match r with
    | Rejected | NotOk | NoBody => Thrown st
    | Body subjects =>
        match renderSubjects subjects st with
        | Thrown st => Thrown st
        | Done st =>
            Done (setSubjectsPanel "none" (subjectsPlaceholder st) "block"
                                   st)
        end
    end in
  match tried with
  | Done st => st
  | Thrown st =>
      let st := setSubjectsPanel "none" "block" (subjectsContainer st) st in
      setPlaceholderText subjectsFailedText st
  end.

(** The body of the generation request. *)
Record generateRequest : Type := GenerateRequest {
  selected_subjects : list string;
  branch : string;
  batch : string
}.

Definition generatingHtml : string :=
  "<span class=" ++ str1 dquote ++ "spinner" ++ str1 dquote
  ++ "></span> Generating...".

Definition generateHtmlAtRest : string :=
  "<span class=" ++ str1 dquote ++ "btn-icon" ++ str1 dquote
  ++ ">⚡</span> Generate My Timetable".

(** The click handler of [generateBtn] up to its [fetch], on the values
    of the two inputs: the page, and the request that is sent. *)
Definition generateStart (branchValue batchValue : string) (st : state)
  : state * generateRequest :=
  let st := setGenerate true generatingHtml st in
  (st, GenerateRequest (JsSet.toArray (selectedSubjects st))
                       (trim branchValue) (trim batchValue)).

(** The body of the generation response, of the shape
    [{ success, data?, message? }]: whether [success] is truthy, [data]
    when it is there, a mapping from days to slots, and [message] when it
    is there, a string. *)
Record generateResult : Type := GenerateResult {
  success : bool;
  data : option Timetable.ScheduleMapping;
  message : option string
}.

Definition generateFailedText : string :=
  "Failed to generate timetable. Please try again.".

(** The rest of the handler, on the response.  [renderTimetable] throws
    on missing [data] before it writes anything. *)
Definition generateFinish (r : response generateResult) (st : state)
  : state :=
  let tried :=
    match r with
    | Rejected | NotOk | NoBody => Thrown st
    | Body result =>
        if success result then
          match data result with
          | None => Thrown st
          | Some d =>
              Done (setResults (Timetable.renderTimetable d) "block" st)
          end
        else
          Done (alert (match message result with
                       | Some (String c m) => String c m
                       | _ => "No matching classes found"
                       end) st)
    end in
  let st :=
    match tried with
    | Done st => st
    | Thrown st => alert generateFailedText st
    end in
  setGenerate false generateHtmlAtRest st.

(** The items of the list that are selected. *)
Definition selectedItems (st : state) : list item :=
  filter selected (items st).

(** The page after the item clicks of [clicks], in this order. *)
Definition clickItems (clicks : list nat) (st : state) : state :=
  fold_left (fun st i => clickItem i st) clicks st.

(** The set of selected subjects, the count and the button agree with
    the items that show as selected. *)
Definition selectionMatches (st : state) : Prop :=
  NoDup (selectedSubjects st)
  /\ (forall s, In s (selectedSubjects st)
                <-> In s (map subject (selectedItems st)))
  /\ selectedCount st = countText (List.length (selectedSubjects st))
  /\ generateDisabled st = Nat.eqb (List.length (selectedSubjects st)) 0.

(** [pat] occurs in [s]. *)
Definition occursIn (pat s : string) : Prop :=
  exists before after, s = before ++ pat ++ after.

(** A page for the examples: no item, and every text empty. *)
Definition blank : state :=
  State [] [] "" false "" "" "" "" "" "" "" [].

End Page.

(** * Properties *)

(** ** Stable sorting *)

Section SortFacts.
Context {A : Type}.
Variable compareFn : A -> A -> comparison.

Lemma insert_permutation (x : A) (l : list A) :
  Permutation (x :: l) (JsArray.insert compareFn x l).
Proof.
  induction l as [|y l IH]; simpl.
  - apply Permutation_refl.
  - destruct (compareFn x y); try apply Permutation_refl.
    eapply perm_trans; [apply perm_swap|].
    now apply perm_skip.
Qed.

Lemma sort_permutation (l : list A) :
  Permutation l (JsArray.sort compareFn l).
Proof.
  induction l as [|x l IH]; simpl.
  - constructor.
  - eapply perm_trans; [apply perm_skip, IH|].
    apply insert_permutation.
Qed.

Lemma sort_In (l : list A) (x : A) :
  In x (JsArray.sort compareFn l) <-> In x l.
Proof.
  split; intro H.
  - eapply Permutation_in; [apply Permutation_sym, sort_permutation|exact H].
  - eapply Permutation_in; [apply sort_permutation|exact H].
Qed.

(** An element that no element of the array goes before stays in
    front. *)
Lemma insert_front (x : A) (l : list A) :
  Forall (fun y => compareFn x y <> Gt) l ->
  JsArray.insert compareFn x l = x :: l.
Proof.
  destruct 1 as [|y l Hy _]; simpl; [reflexivity|].
  destruct (compareFn x y); congruence.
Qed.

(** An element passes the elements that go before it. *)
Lemma insert_passes (x : A) (l1 l2 : list A) :
  Forall (fun y => compareFn x y = Gt) l1 ->
  JsArray.insert compareFn x (l1 ++ l2) =
  (l1 ++ JsArray.insert compareFn x l2)%list.
Proof.
  induction 1 as [|y l1 Hy _ IH]; simpl; [reflexivity|].
  now rewrite Hy, IH.
Qed.

(** The elements on which the comparator is an order: for the time
    slots, the labels whose key is a number. *)
Variable ordered : A -> Prop.

Hypothesis compare_total :
  forall a b, compareFn a b = Gt -> compareFn b a <> Gt.
Hypothesis compare_trans :
  forall a b c,
    ordered a -> ordered b -> ordered c ->
    JsArray.notAfter compareFn a b -> JsArray.notAfter compareFn b c ->
    JsArray.notAfter compareFn a c.

Lemma insert_sorted (x : A) (l : list A) :
  ordered x -> Forall ordered l ->
  StronglySorted (JsArray.notAfter compareFn) l ->
  StronglySorted (JsArray.notAfter compareFn) (JsArray.insert compareFn x l).
Proof.
  intros Hx Hord Hsorted. induction Hsorted as [|y l Hl IH Hy]; simpl.
  - repeat constructor.
  - inversion Hord as [|? ? Py Pl]; subst.
    assert (Hfront : JsArray.notAfter compareFn x y ->
                     StronglySorted (JsArray.notAfter compareFn)
                                    (x :: y :: l)).
    { intro Hxy. constructor; [now constructor|].
      constructor; [exact Hxy|].
      rewrite Forall_forall in Hy, Pl |- *. intros z Hz.
      apply compare_trans with y; auto. }
    destruct (compareFn x y) eqn:E.
    + apply Hfront. unfold JsArray.notAfter. congruence.
    + apply Hfront. unfold JsArray.notAfter. congruence.
    + constructor; [now apply IH|].
      rewrite Forall_forall. intros z Hz.
      apply (Permutation_in z (Permutation_sym (insert_permutation x l)))
        in Hz.
      destruct Hz as [<-|Hz].
      * now apply compare_total.
      * rewrite Forall_forall in Hy. now apply Hy.
Qed.

Lemma sort_sorted (l : list A) :
  Forall ordered l ->
  StronglySorted (JsArray.notAfter compareFn) (JsArray.sort compareFn l).
Proof.
  induction 1 as [|x l Hx Hl IH]; simpl.
  - constructor.
  - apply insert_sorted; [exact Hx| |exact IH].
    rewrite Forall_forall in Hl |- *. intros z Hz.
    apply Hl. now apply sort_In.
Qed.
End SortFacts.

(** ** Sets and objects *)

Section SetFacts.

Lemma has_In (x : string) (s : JsSet.t) :
  JsSet.has x s = true <-> In x s.
Proof.
  unfold JsSet.has. rewrite existsb_exists. split.
  - intros [y [Hy E]]. apply String.eqb_eq in E. now subst.
  - intro H. exists x. split; [exact H|apply String.eqb_refl].
Qed.

Lemma add_In (x y : string) (s : JsSet.t) :
  In y (JsSet.add x s) <-> y = x \/ In y s.
Proof.
  unfold JsSet.add. destruct (JsSet.has x s) eqn:E.
  - apply has_In in E. split; [now right|]. intros [->|H]; assumption.
  - rewrite in_app_iff. simpl. intuition.
Qed.

Lemma add_NoDup (x : string) (s : JsSet.t) :
  NoDup s -> NoDup (JsSet.add x s).
Proof.
  intro H. unfold JsSet.add. destruct (JsSet.has x s) eqn:E; [exact H|].
  assert (Hx : ~ In x s).
  { intro Hin. apply has_In in Hin. congruence. }
  clear E. induction H as [|y s Hy Hs IH]; simpl.
  - constructor; [intros []|constructor].
  - constructor.
    + rewrite in_app_iff. simpl. intros [H1|[H1|[]]]; [now apply Hy|].
      subst. apply Hx. now left.
    + apply IH. intro H1. apply Hx. now right.
Qed.

Lemma addAll_In (l : list string) (s : JsSet.t) (y : string) :
  In y (fold_left (fun set time => JsSet.add time set) l s) <->
  In y l \/ In y s.
Proof.
  revert s. induction l as [|x l IH]; intro s; simpl.
  - intuition.
  - rewrite IH, add_In. intuition.
Qed.

Lemma addAll_NoDup (l : list string) (s : JsSet.t) :
  NoDup s -> NoDup (fold_left (fun set time => JsSet.add time set) l s).
Proof.
  revert s. induction l as [|x l IH]; intros s H; simpl; [exact H|].
  now apply IH, add_NoDup.
Qed.

Lemma get_keys {V} (o : JsObject.t V) (k : string) :
  In k (JsObject.keys o) <-> exists v, JsObject.get o k = Some v.
Proof.
  induction o as [|[k' v'] o IH]; simpl.
  - split; [intros []|intros [v Hv]; discriminate].
  - destruct (String.eqb_spec k' k) as [->|Hne].
    + split; [intros _; now exists v'|now left].
    + rewrite IH. split; [intros [H|H]; [contradiction|exact H]|now right].
Qed.

End SetFacts.

(** ** The grid *)

Section GridFacts.
Import Timetable.

Lemma timeSlots_fold_In (data : ScheduleMapping) (ds : list string)
      (s : JsSet.t) (t : string) :
  In t (fold_left
          (fun set day =>
             fold_left (fun set time => JsSet.add time set)
                       (JsObject.keys (slotsOf data day)) set) ds s) <->
  (exists day, In day ds /\ In t (JsObject.keys (slotsOf data day)))
  \/ In t s.
Proof.
  revert s. induction ds as [|d ds IH]; intro s; simpl.
  - split; [now right|]. intros [[day [[] _]]|H]. exact H.
  - rewrite IH, addAll_In. split.
    + intros [[day [Hd Ht]]|[H|H]].
      * left. exists day. split; [now right|exact Ht].
      * left. exists d. split; [now left|exact H].
      * now right.
    + intros [[day [[<-|Hd] Ht]]|H].
      * right. now left.
      * left. now exists day.
      * right. now right.
Qed.

Lemma timeSlots_fold_NoDup (data : ScheduleMapping) (ds : list string)
      (s : JsSet.t) :
  NoDup s ->
  NoDup (fold_left
           (fun set day =>
              fold_left (fun set time => JsSet.add time set)
                        (JsObject.keys (slotsOf data day)) set) ds s).
Proof.
  revert s. induction ds as [|d ds IH]; intros s H; simpl; [exact H|].
  now apply IH, addAll_NoDup.
Qed.

Lemma timeSlots_In (data : ScheduleMapping) (t : string) :
  In t (timeSlots data) <->
  exists day slots,
    JsObject.get data day = Some slots /\ In t (JsObject.keys slots).
Proof.
  unfold timeSlots. rewrite timeSlots_fold_In. split.
  - intros [[day [Hd Ht]]|[]].
    apply get_keys in Hd. destruct Hd as [slots Hs].
    exists day, slots. split; [exact Hs|].
    unfold slotsOf in Ht. now rewrite Hs in Ht.
  - intros [day [slots [Hs Ht]]]. left. exists day. split.
    + apply get_keys. now exists slots.
    + unfold slotsOf. now rewrite Hs.
Qed.

Lemma timeSlots_NoDup (data : ScheduleMapping) : NoDup (timeSlots data).
Proof. apply timeSlots_fold_NoDup. constructor. Qed.

End GridFacts.

Section GridClaims.
Import Timetable.

Lemma sortedTimes_In (data : ScheduleMapping) (t : string) :
  In t (sortedTimes data) <->
  exists day slots,
    JsObject.get data day = Some slots /\ In t (JsObject.keys slots).
Proof.
  unfold sortedTimes, JsSet.toArray. rewrite sort_In. apply timeSlots_In.
Qed.

Lemma sortedTimes_NoDup (data : ScheduleMapping) :
  NoDup (sortedTimes data).
Proof.
  unfold sortedTimes, JsSet.toArray.
  eapply Permutation_NoDup; [apply sort_permutation|].
  apply timeSlots_NoDup.
Qed.

Lemma sortedDays_In (data : ScheduleMapping) (day : string) :
  In day (sortedDays data) <-> In day (days data).
Proof. unfold sortedDays. apply sort_In. Qed.

End GridClaims.

(** C7.  The columns of the grid are the time-slot labels found under the
    days of the data, each one once: a label is a column exactly when some
    day of the data has it as a key, whatever the number of days that have
    it, and no column occurs twice. *)
Theorem columns_are_union_without_repeats :
  forall (data : Timetable.ScheduleMapping) (t : string),
    (count_occ string_dec (Timetable.sortedTimes data) t = 1 <->
     exists day slots,
       JsObject.get data day = Some slots /\ In t (JsObject.keys slots))
    /\ count_occ string_dec (Timetable.sortedTimes data) t <= 1
    /\ Timetable.gridColumns (Timetable.buildGrid data)
       = Timetable.sortedTimes data.
Proof.
  intros data t.
  pose proof (sortedTimes_NoDup data) as Hnd.
  rewrite (NoDup_count_occ string_dec) in Hnd. specialize (Hnd t).
  split; [|split].
  - rewrite <- sortedTimes_In, (count_occ_In string_dec). lia.
  - exact Hnd.
  - unfold Timetable.buildGrid, Timetable.sortedTimes, Timetable.timeSlots.
    destruct (Timetable.days data) eqn:E; reflexivity.
Qed.

Section CellFacts.
Import Timetable.

(** The cell of a row of the grid. *)
Lemma cell_of_row (data : ScheduleMapping) (day time : string) :
  In day (sortedDays data) ->
  exists slots,
    JsObject.get data day = Some slots
    /\ cell data day time
       = match JsObject.get slots time with
         | Some label => Str label
         | None =>
             if JsObject.inherits time then Inherited time else Str ""
         end.
Proof.
  intro Hday.
  apply sortedDays_In, get_keys in Hday. destruct Hday as [slots Hslots].
  exists slots. split; [exact Hslots|].
  unfold cell, slotsOf. rewrite Hslots.
  destruct (JsObject.get slots time) as [label|].
  - destruct label; reflexivity.
  - destruct (JsObject.inherits time); reflexivity.
Qed.

End CellFacts.

(** C8.  For a row [day] and a column [time] of the grid, [data[day]] is
    an object, so that reading [data[day][time]] does not throw.  The
    cell is the label stored there, and the empty string when the day has
    no such slot and [time] names no property of [Object.prototype]; when
    it names one, the cell is that property and not a string.  So it is
    for the column [constructor] of a day without this slot: the cell is
    neither a string nor empty, and the markup shows the text of a
    function. *)
Theorem absent_slot_reads_inherited_property :
  (forall (data : Timetable.ScheduleMapping) rows columns cellAt
          (day time : string),
      Timetable.buildGrid data = Timetable.Grid rows columns cellAt ->
      In day rows -> In time columns ->
      exists slots,
        JsObject.get data day = Some slots
        /\ cellAt day time = Timetable.cell data day time
        /\ Timetable.cell data day time
           = match JsObject.get slots time with
             | Some label => Timetable.Str label
             | None =>
                 if JsObject.inherits time then Timetable.Inherited time
                 else Timetable.Str ""
             end)
  /\ Timetable.buildGrid Examples.inheritedSlot
     = Timetable.Grid ["Monday"; "Tuesday"]
                      ["constructor"; "9:00 - 10:00"]
                      (Timetable.cell Examples.inheritedSlot)
  /\ JsObject.get (Timetable.slotsOf Examples.inheritedSlot "Tuesday")
                  "constructor" = None
  /\ Timetable.cell Examples.inheritedSlot "Tuesday" "constructor"
     = Timetable.Inherited "constructor"
  /\ (forall s : string,
         Timetable.cell Examples.inheritedSlot "Tuesday" "constructor"
         <> Timetable.Str s)
  /\ Timetable.toString
       (Timetable.cell Examples.inheritedSlot "Tuesday" "constructor")
     <> ""
  /\ Timetable.cell Examples.inheritedSlot "Monday" "constructor"
     = Timetable.Str "Math (R1)"
  /\ Timetable.cell Examples.inheritedSlot "Monday" "9:00 - 10:00"
     = Timetable.Str "".
Proof.
  split.
  { intros data rows columns cellAt day time Hgrid Hday Htime.
    unfold Timetable.buildGrid in Hgrid.
    destruct (Nat.eqb _ 0); [discriminate|].
    injection Hgrid as <- <- <-.
    destruct (cell_of_row data day time Hday) as (slots & Hslots & Hcell).
    exists slots. repeat split; assumption. }
  repeat split; try reflexivity.
  - intros s H. vm_compute in H. discriminate H.
  - vm_compute. discriminate.
Qed.

Lemma absent_slot_reads_inherited_property_witness :
  exists slots,
    JsObject.get Examples.sparse "Friday" = Some slots
    /\ Timetable.cell Examples.sparse "Friday" "10:45 - 11:30"
       = Timetable.cell Examples.sparse "Friday" "10:45 - 11:30"
    /\ Timetable.cell Examples.sparse "Friday" "10:45 - 11:30"
       = match JsObject.get slots "10:45 - 11:30" with
         | Some label => Timetable.Str label
         | None =>
             if JsObject.inherits "10:45 - 11:30"
             then Timetable.Inherited "10:45 - 11:30"
             else Timetable.Str ""
         end.
Proof.
  destruct absent_slot_reads_inherited_property as [Hcell _].
  apply (Hcell Examples.sparse
           (Timetable.sortedDays Examples.sparse)
           (Timetable.sortedTimes Examples.sparse)
           (Timetable.cell Examples.sparse)).
  - reflexivity.
  - vm_compute. tauto.
  - vm_compute. tauto.
Defined.

Section StringFacts.

Lemma append_nil_r (s : string) : s ++ "" = s.
Proof. induction s as [|c s IH]; simpl; [reflexivity|now rewrite IH]. Qed.

Lemma append_assoc (s1 s2 s3 : string) :
  (s1 ++ s2) ++ s3 = s1 ++ (s2 ++ s3).
Proof. induction s1 as [|c s1 IH]; simpl; [reflexivity|now rewrite IH]. Qed.

(** A loop that only appends to its accumulator keeps what the
    accumulator held. *)
Lemma fold_left_appends {B} (f : string -> B -> string) (l : list B) :
  (forall acc x, exists tail, f acc x = acc ++ tail) ->
  forall acc, exists tail, fold_left f l acc = acc ++ tail.
Proof.
  intro Hf. induction l as [|x l IH]; intro acc; simpl.
  - exists "". now rewrite append_nil_r.
  - destruct (Hf acc x) as [t1 ->]. destruct (IH (acc ++ t1)) as [t2 ->].
    exists (t1 ++ t2). apply append_assoc.
Qed.

End StringFacts.

Lemma renderTimetable_table (data : Timetable.ScheduleMapping) :
  Timetable.days data <> [] ->
  exists tail, Timetable.renderTimetable data = "<table class=" ++ tail.
Proof.
  intro Hne. unfold Timetable.renderTimetable.
  destruct (Timetable.days data) as [|d ds] eqn:E; [contradiction|].
  simpl Nat.eqb. cbv zeta.
  set (init := "<table class=" ++ _).
  destruct (fold_left_appends
              (fun html time => html ++ "<th>" ++ time ++ "</th>")
              (Timetable.sortedTimes data)
              (fun acc x => ex_intro _ _ eq_refl) init) as [t1 ->].
  set (rowf := fun (html : string) (day : string) => _).
  assert (Hrow : forall acc x, exists tail, rowf acc x = acc ++ tail).
  { intros acc x. unfold rowf.
    destruct (fold_left_appends
                (fun html time =>
                   html ++ "<td>"
                   ++ Timetable.toString (Timetable.cell data x time)
                   ++ "</td>")
                (Timetable.sortedTimes data)
                (fun acc x => ex_intro _ _ eq_refl)
                (acc ++ "<tr><th>" ++ x ++ "</th>")) as [t ->].
    eexists. rewrite !append_assoc. reflexivity. }
  destruct (fold_left_appends rowf (Timetable.sortedDays data) Hrow
              ((init ++ t1) ++ "</tr></thead><tbody>")) as [t2 ->].
  unfold init. eexists. rewrite !append_assoc. reflexivity.
Qed.

(** C9.  Data without days give the empty grid, which has no rows and no
    columns, and [renderTimetable] shows the placeholder.  Data with a day
    give neither: their grid is not the empty grid and their markup is a
    table, not the placeholder. *)
Theorem no_days_give_placeholder :
  forall data : Timetable.ScheduleMapping,
    Timetable.days data = [] ->
    (Timetable.buildGrid data = Timetable.EmptyGrid
     /\ Timetable.gridRows (Timetable.buildGrid data) = []
     /\ Timetable.gridColumns (Timetable.buildGrid data) = []
     /\ Timetable.renderTimetable data = Timetable.placeholderHtml)
    /\ forall other : Timetable.ScheduleMapping,
         Timetable.days other <> [] ->
         Timetable.buildGrid other <> Timetable.buildGrid data
         /\ Timetable.renderTimetable other <> Timetable.renderTimetable data.
Proof.
  intros data Hdays.
  assert (Hgrid : Timetable.buildGrid data = Timetable.EmptyGrid).
  { unfold Timetable.buildGrid. now rewrite Hdays. }
  assert (Hhtml : Timetable.renderTimetable data = Timetable.placeholderHtml).
  { unfold Timetable.renderTimetable. now rewrite Hdays. }
  split.
  - rewrite Hgrid. repeat split. exact Hhtml.
  - intros other Hother. rewrite Hgrid, Hhtml. split.
    + unfold Timetable.buildGrid.
      destruct (Timetable.days other); [contradiction|]. discriminate.
    + destruct (renderTimetable_table other Hother) as [tail ->].
      discriminate.
Qed.

Lemma no_days_give_placeholder_witness :
  (Timetable.buildGrid [] = Timetable.EmptyGrid
   /\ Timetable.gridRows (Timetable.buildGrid []) = []
   /\ Timetable.gridColumns (Timetable.buildGrid []) = []
   /\ Timetable.renderTimetable [] = Timetable.placeholderHtml)
  /\ Timetable.buildGrid Examples.tuesdayMonday <> Timetable.buildGrid []
  /\ Timetable.renderTimetable Examples.tuesdayMonday
     <> Timetable.renderTimetable [].
Proof.
  destruct (no_days_give_placeholder [] eq_refl) as [H1 H2].
  split; [exact H1|].
  apply H2. discriminate.
Defined.

(** ** The order of the days *)

Section DayOrder.
Import Timetable.

Lemma indexOfFrom_spec (l : list string) (i : Z) (x : string) :
  if existsb (String.eqb x) l
  then (i <= JsArray.indexOfFrom i l x)%Z
  else JsArray.indexOfFrom i l x = (-1)%Z.
Proof.
  revert i. induction l as [|y l IH]; intro i; simpl; [reflexivity|].
  rewrite (String.eqb_sym x y).
  destruct (String.eqb y x); simpl; [lia|].
  specialize (IH (i + 1)%Z).
  destruct (existsb (String.eqb x) l); [lia|exact IH].
Qed.

Lemma indexOf_recognized (day : string) :
  recognized day = true -> (0 <= JsArray.indexOf dayOrder day)%Z.
Proof.
  intro H. unfold recognized in H.
  pose proof (indexOfFrom_spec dayOrder 0 day) as S.
  rewrite H in S. exact S.
Qed.

Lemma indexOf_unrecognized (day : string) :
  recognized day = false -> JsArray.indexOf dayOrder day = (-1)%Z.
Proof.
  intro H. unfold recognized in H.
  pose proof (indexOfFrom_spec dayOrder 0 day) as S.
  rewrite H in S. exact S.
Qed.

Lemma indexOf_lower_bound (day : string) :
  (-1 <= JsArray.indexOf dayOrder day)%Z.
Proof.
  destruct (recognized day) eqn:E.
  - apply indexOf_recognized in E. lia.
  - apply indexOf_unrecognized in E. lia.
Qed.

(** No day goes before a day that [dayOrder] does not list. *)
Lemma unrecognized_not_after (u day : string) :
  recognized u = false -> compareDays u day <> Gt.
Proof.
  intros Hu. unfold compareDays. rewrite (indexOf_unrecognized u Hu).
  pose proof (indexOf_lower_bound day). rewrite Z.compare_gt_iff. lia.
Qed.

(** A listed day goes after every day that is not listed. *)
Lemma recognized_after_unrecognized (r u : string) :
  recognized r = true -> recognized u = false -> compareDays r u = Gt.
Proof.
  intros Hr Hu. unfold compareDays. rewrite (indexOf_unrecognized u Hu).
  pose proof (indexOf_recognized r Hr). rewrite Z.compare_gt_iff. lia.
Qed.

Lemma sort_days_split (l : list string) :
  JsArray.sort compareDays l =
  (filter (fun d => negb (recognized d)) l
   ++ JsArray.sort compareDays (filter recognized l))%list.
Proof.
  induction l as [|x l IH]; [reflexivity|].
  change (JsArray.sort compareDays (x :: l))
    with (JsArray.insert compareDays x (JsArray.sort compareDays l)).
  rewrite IH. simpl filter. destruct (recognized x) eqn:E; simpl negb; cbv iota.
  - rewrite insert_passes; [reflexivity|].
    rewrite Forall_forall. intros u Hu. apply filter_In in Hu.
    destruct Hu as [_ Hu]. apply negb_true_iff in Hu.
    now apply recognized_after_unrecognized.
  - apply insert_front. rewrite Forall_forall. intros y _.
    now apply unrecognized_not_after.
Qed.

End DayOrder.

(** C1, amended.  No day of the data is dropped from the rows.  The day
    names that [dayOrder] does not list come first, before every listed
    day, and keep the order they have in the data; the listed days
    follow. *)
Theorem unrecognized_days_come_first :
  forall data : Timetable.ScheduleMapping,
    Timetable.gridRows (Timetable.buildGrid data) = Timetable.sortedDays data
    /\ Permutation (Timetable.days data) (Timetable.sortedDays data)
    /\ Timetable.sortedDays data =
       (filter (fun d => negb (Timetable.recognized d)) (Timetable.days data)
        ++ JsArray.sort Timetable.compareDays
             (filter Timetable.recognized (Timetable.days data)))%list
    /\ forall u r : string,
         In u (Timetable.days data) -> In r (Timetable.days data) ->
         Timetable.recognized u = false -> Timetable.recognized r = true ->
         JsArray.precedes u r (Timetable.sortedDays data).
Proof.
  intro data. split.
  { unfold Timetable.buildGrid, Timetable.sortedDays.
    destruct (Timetable.days data); reflexivity. }
  split; [apply sort_permutation|].
  split; [apply sort_days_split|].
  intros u r Hu Hr Eu Er. unfold Timetable.sortedDays.
  rewrite sort_days_split.
  assert (Hu' : In u (filter (fun d => negb (Timetable.recognized d))
                             (Timetable.days data))).
  { apply filter_In. split; [exact Hu|]. now rewrite Eu. }
  assert (Hr' : In r (JsArray.sort Timetable.compareDays
                        (filter Timetable.recognized (Timetable.days data)))).
  { apply sort_In, filter_In. now split. }
  apply in_split in Hu'. destruct Hu' as [a [b ->]].
  apply in_split in Hr'. destruct Hr' as [c [d ->]].
  exists a, (b ++ c)%list, d.
  now rewrite <- !app_assoc.
Qed.

Lemma unrecognized_days_come_first_witness :
  JsArray.precedes "Funday" "Sunday"
    (Timetable.sortedDays Examples.sundayFunday).
Proof.
  apply (unrecognized_days_come_first Examples.sundayFunday);
    vm_compute; tauto.
Defined.

(** C1 as stated fails: in the rows of the data [{Sunday, Funday}] the
    unlisted name "Funday" is first, so the listed day "Sunday" does not
    come before it. *)
Lemma funday_before_sunday :
  In "Funday" (Timetable.days Examples.sundayFunday)
  /\ In "Sunday" (Timetable.days Examples.sundayFunday)
  /\ Timetable.recognized "Funday" = false
  /\ Timetable.recognized "Sunday" = true
  /\ Timetable.sortedDays Examples.sundayFunday = ["Funday"; "Sunday"]
  /\ ~ JsArray.precedes "Sunday" "Funday"
         (Timetable.sortedDays Examples.sundayFunday).
Proof.
  repeat split; try (vm_compute; tauto).
  change (Timetable.sortedDays Examples.sundayFunday)
    with ["Funday"; "Sunday"].
  intros [l1 [l2 [l3 H]]].
  destruct l1 as [|a [|b l1]]; simpl in H.
  - discriminate.
  - injection H as _ H. destruct l2; discriminate.
  - injection H as _ _ H. destruct l1; discriminate.
Qed.

(** ** The order of the time slots *)

Section ParseTime.
Import Timetable.

Lemma split_nonempty (sep : ascii) (s : string) :
  exists first others, JsString.split sep s = first :: others.
Proof.
  unfold JsString.split. destruct (JsString.split_from sep s) as [x r].
  now exists x, r.
Qed.

(** The [catch] of [parseTime] never runs. *)
Lemma parseTime_no_catch (t : string) :
  parseTime t =
  JsNumber.parseFloat
    (JsString.replace ":" "."
       (JsString.trim (fst (JsString.split_from "-" t)))).
Proof.
  unfold parseTime, JsString.split.
  destruct (JsString.split_from "-" t) as [x r]. reflexivity.
Qed.

End ParseTime.

(** C2, amended.  For the data of example 1 the rows are Monday, Tuesday
    and the columns are "9:00 - 10:00", "10:00 - 11:00": the keys of the
    two labels are the numbers 9 and 10, and 9 is the smaller. *)
Theorem example1_rows_and_columns :
  Timetable.gridRows (Timetable.buildGrid Examples.tuesdayMonday)
  = ["Monday"; "Tuesday"]
  /\ Timetable.gridColumns (Timetable.buildGrid Examples.tuesdayMonday)
     = ["9:00 - 10:00"; "10:00 - 11:00"]
  /\ Timetable.parseTime "9:00 - 10:00" = JsNumber.ofZ 9
  /\ Timetable.parseTime "10:00 - 11:00" = JsNumber.ofZ 10
  /\ JsNumber.sub (Timetable.parseTime "9:00 - 10:00")
                  (Timetable.parseTime "10:00 - 11:00")
     = JsNumber.ofZ (-1)
  /\ Timetable.compareTimes "9:00 - 10:00" "10:00 - 11:00" = Lt.
Proof. repeat split; vm_compute; reflexivity. Qed.

(** C2 as stated fails: the columns of example 1 are not
    "10:00 - 11:00", "9:00 - 10:00". *)
Lemma example1_columns_not_reversed :
  Timetable.sortedTimes Examples.tuesdayMonday
  = ["9:00 - 10:00"; "10:00 - 11:00"]
  /\ Timetable.gridColumns (Timetable.buildGrid Examples.tuesdayMonday)
     <> ["10:00 - 11:00"; "9:00 - 10:00"].
Proof. split; [vm_compute; reflexivity|vm_compute; discriminate]. Qed.

(** C3, on the code.  The [catch] of [parseTime] never runs, since no
    call of its [try] throws on a string.  A label without a start time
    has the key [NaN], not the 99 of the [catch]; the difference of [NaN]
    and a number is [NaN], which the sort reads as zero; and with such a
    label first in the data, its column is first in the grid, before the
    column of 9:00. *)
Theorem malformed_label_key_is_nan :
  (forall t : string,
      exists first others,
        JsString.split "-" t = first :: others
        /\ Timetable.parseTime t
           = JsNumber.parseFloat
               (JsString.replace ":" "." (JsString.trim first)))
  /\ Timetable.parseTime "TBA" = JsNumber.NaN
  /\ Timetable.parseTime "TBA" <> JsNumber.ofZ 99
  /\ Timetable.parseTime "9:00 - 10:00" = JsNumber.ofZ 9
  /\ JsNumber.sub (Timetable.parseTime "TBA")
                  (Timetable.parseTime "9:00 - 10:00")
     = JsNumber.NaN
  /\ Timetable.compareTimes "TBA" "9:00 - 10:00" = Eq
  /\ Timetable.compareTimes "9:00 - 10:00" "TBA" = Eq
  /\ Timetable.sortedTimes Examples.malformedFirst = ["TBA"; "9:00 - 10:00"].
Proof.
  split.
  { intro t. unfold Timetable.parseTime, JsString.split.
    destruct (JsString.split_from "-" t) as [x r]. now exists x, r. }
  repeat split; try (vm_compute; reflexivity). vm_compute. discriminate.
Qed.

(** ** Numbers: order and rounding *)

Section NumberFacts.

Lemma SFcompare_antisym (x y : spec_float) :
  SFcompare x y = Some Gt -> SFcompare y x = Some Lt.
Proof.
  destruct x as [sx|sx| |sx mx ex], y as [sy|sy| |sy my ey]; simpl;
    try discriminate;
    repeat match goal with b : bool |- _ => destruct b end;
    simpl; try discriminate; try reflexivity.
  - rewrite (Z.compare_antisym ey ex).
    destruct (ey ?= ex)%Z eqn:E; simpl; try discriminate; try reflexivity.
    rewrite Pos.compare_cont_spec, Pos.compare_cont_spec. simpl.
    rewrite (Pos.compare_antisym my mx).
    destruct (my ?= mx)%positive; simpl; try discriminate; reflexivity.
  - rewrite (Z.compare_antisym ey ex).
    destruct (ey ?= ex)%Z eqn:E; simpl; try discriminate; try reflexivity.
    rewrite Pos.compare_cont_spec, Pos.compare_cont_spec. simpl.
    rewrite (Pos.compare_antisym my mx).
    destruct (my ?= mx)%positive; simpl; try discriminate; reflexivity.
Qed.

Ltac order_cases :=
  repeat match goal with
    | H : context [Pos.compare_cont Eq ?a ?b] |- _ =>
        rewrite (Pos.compare_cont_spec a b Eq) in H; simpl in H
    | |- context [Pos.compare_cont Eq ?a ?b] =>
        rewrite (Pos.compare_cont_spec a b Eq); simpl
    end;
  repeat match goal with
    | H : context [(?a ?= ?b)%Z] |- _ =>
        destruct (Z.compare_spec a b); simpl in H
    | H : context [(?a ?= ?b)%positive] |- _ =>
        destruct (Pos.compare_spec a b); simpl in H
    | |- context [(?a ?= ?b)%Z] =>
        destruct (Z.compare_spec a b); simpl
    | |- context [(?a ?= ?b)%positive] =>
        destruct (Pos.compare_spec a b); simpl
    end;
  try congruence; try lia.

Lemma SFcompare_trans (x y z : spec_float) :
  SFcompare x y <> Some Gt -> SFcompare y z <> Some Gt ->
  JsNumber.isNaN x = false -> JsNumber.isNaN y = false ->
  JsNumber.isNaN z = false ->
  SFcompare x z <> Some Gt.
Proof.
  destruct x as [sx|sx| |sx mx ex], y as [sy|sy| |sy my ey],
           z as [sz|sz| |sz mz ez]; simpl; try discriminate;
    repeat match goal with b : bool |- _ => destruct b end;
    simpl; try congruence; intros Hxy Hyz _ _ _ Hxz;
    order_cases.
Qed.

Lemma leb_order (x y : spec_float) :
  JsNumber.isNaN x = false -> JsNumber.isNaN y = false ->
  (JsNumber.leb x y = true <-> JsNumber.order x y <> Gt).
Proof.
  intros Hx Hy. unfold JsNumber.leb, SFleb, JsNumber.order.
  destruct (SFcompare x y) as [[| |]|] eqn:E; split; try congruence.
  - destruct x, y; simpl in *; try discriminate;
      repeat match goal with b : bool |- _ => destruct b end;
      discriminate.
Qed.

Lemma order_total (x y : spec_float) :
  JsNumber.order x y = Gt -> JsNumber.order y x <> Gt.
Proof.
  unfold JsNumber.order. intro H.
  destruct (SFcompare x y) as [c|] eqn:E; [subst c|discriminate].
  now rewrite (SFcompare_antisym _ _ E).
Qed.

Lemma order_trans (x y z : spec_float) :
  JsNumber.isNaN x = false -> JsNumber.isNaN y = false ->
  JsNumber.isNaN z = false ->
  JsNumber.order x y <> Gt -> JsNumber.order y z <> Gt ->
  JsNumber.order x z <> Gt.
Proof.
  intros Nx Ny Nz Hxy Hyz.
  pose proof (SFcompare_trans x y z) as T.
  unfold JsNumber.order in *.
  destruct (SFcompare x z) as [[]|] eqn:E; try discriminate.
  exfalso. apply T; try assumption; try reflexivity.
  - destruct (SFcompare x y) as [[]|]; congruence.
  - destruct (SFcompare y z) as [[]|]; congruence.
Qed.

End NumberFacts.

(** ** Rounding to binary64

    The numbers that [parseFloat] returns are numbers of the format:
    their mantissa has at most 53 bits and their exponent is the one the
    format gives to a mantissa of this size.  On such numbers the sign of
    a difference tells the order of its operands. *)

Ltac unfold_fexp := unfold fexp, emin, JsNumber.prec, JsNumber.emax in *.

Section Digits.
Local Open Scope Z_scope.

Lemma digits2_pos_size (p : positive) : digits2_pos p = Pos.size p.
Proof. induction p as [p IH|p IH|]; simpl; now rewrite ?IH. Qed.

Lemma Zdigits2_log2 (m : Z) : 0 < m -> Zdigits2 m = Z.log2 m + 1.
Proof.
  destruct m as [|p|p]; try lia. intros _. simpl.
  rewrite digits2_pos_size. destruct p; simpl; lia.
Qed.

Lemma Zdigits2_nonneg (m : Z) : 0 <= Zdigits2 m.
Proof. destruct m; simpl; lia. Qed.

Lemma Zdigits2_zero (m : Z) : 0 <= m -> Zdigits2 m = 0 -> m = 0.
Proof. destruct m; simpl; lia. Qed.

Lemma Zdigits2_mono (a b : Z) : 0 <= a <= b -> Zdigits2 a <= Zdigits2 b.
Proof.
  intros [Ha Hab]. destruct (Z.eq_dec a 0) as [->|Hne].
  - apply Zdigits2_nonneg.
  - rewrite !Zdigits2_log2 by lia.
    pose proof (Z.log2_le_mono a b Hab). lia.
Qed.

Lemma Zdigits2_succ (m : Z) : 0 <= m -> Zdigits2 (m + 1) <= Zdigits2 m + 1.
Proof.
  intro Hm. destruct (Z.eq_dec m 0) as [->|Hne]; [simpl; lia|].
  rewrite !Zdigits2_log2 by lia.
  pose proof (Z.log2_le_mono (m + 1) (2 * m) ltac:(lia)) as H.
  rewrite Z.log2_double in H by lia. lia.
Qed.

Lemma Zdigits2_ge_pow (k m : Z) : 0 <= k -> 2 ^ k <= m -> k + 1 <= Zdigits2 m.
Proof.
  intros Hk H.
  assert (Hm : 0 < m) by (pose proof (Z.pow_pos_nonneg 2 k); lia).
  rewrite Zdigits2_log2 by lia.
  pose proof (Z.log2_le_mono _ _ H) as L.
  rewrite Z.log2_pow2 in L by lia. lia.
Qed.

Lemma Zdigits2_bounds (m : Z) :
  0 < m -> 2 ^ (Zdigits2 m - 1) <= m < 2 ^ Zdigits2 m.
Proof.
  intro Hm. rewrite Zdigits2_log2 by lia.
  pose proof (Z.log2_spec m Hm) as H.
  replace (Z.log2 m + 1 - 1) with (Z.log2 m) by lia.
  unfold Z.succ in H. exact H.
Qed.

End Digits.

Section Shifts.
Import JsNumber.
Local Open Scope Z_scope.

(** A shift to the right by [n] bits takes [n] digits away. *)
Lemma shr_1_spec (s : shr_record) :
  0 <= shr_m s ->
  0 <= shr_m (shr_1 s)
  /\ Zdigits2 (shr_m (shr_1 s)) = Z.max 0 (Zdigits2 (shr_m s) - 1).
Proof.
  destruct s as [m r t]. cbn [shr_m].
  destruct m as [|[p|p|]|p]; cbn [shr_1 shr_m Zdigits2 digits2_pos];
    rewrite ?Pos2Z.inj_succ; lia.
Qed.

Lemma iter_shr_1_spec (n : positive) (s : shr_record) :
  0 <= shr_m s ->
  0 <= shr_m (iter_pos shr_1 n s)
  /\ Zdigits2 (shr_m (iter_pos shr_1 n s))
     = Z.max 0 (Zdigits2 (shr_m s) - Zpos n).
Proof.
  revert s. induction n as [n IH|n IH|]; intros s Hs; simpl.
  - destruct (shr_1_spec s Hs) as [H1 D1].
    destruct (IH _ H1) as [H2 D2]. destruct (IH _ H2) as [H3 D3].
    split; [exact H3|]. rewrite D3, D2, D1. lia.
  - destruct (IH _ Hs) as [H2 D2]. destruct (IH _ H2) as [H3 D3].
    split; [exact H3|]. rewrite D3, D2. lia.
  - apply shr_1_spec, Hs.
Qed.

Lemma shr_fexp_spec (m e : Z) (l : location) :
  0 <= m ->
  let r := fst (shr_fexp prec emax m e l) in
  let e' := snd (shr_fexp prec emax m e l) in
  let n := fexp prec emax (Zdigits2 m + e) - e in
  0 <= shr_m r
  /\ ((n <= 0 /\ shr_m r = m /\ e' = e)
      \/ (0 < n /\ e' = e + n
          /\ Zdigits2 (shr_m r) = Z.max 0 (Zdigits2 m - n))).
Proof.
  intro Hm. cbv zeta. unfold shr_fexp, shr.
  assert (H0 : shr_m (shr_record_of_loc m l) = m).
  { destruct l as [|[| |]]; reflexivity. }
  destruct (fexp prec emax (Zdigits2 m + e) - e) as [|n|n] eqn:E; simpl.
  - rewrite H0. split; [exact Hm|left]. lia.
  - destruct (iter_shr_1_spec n (shr_record_of_loc m l)) as [H1 D1];
      [now rewrite H0|].
    split; [exact H1|right]. rewrite D1, H0. lia.
  - rewrite H0. split; [exact Hm|left]. lia.
Qed.

End Shifts.

Section RoundAux.
Import JsNumber.
Local Open Scope Z_scope.

Lemma round_nearest_even_bounds (m : Z) (l : location) :
  m <= round_nearest_even m l <= m + 1.
Proof.
  destruct l as [|[| |]]; simpl; try lia. destruct (Z.even m); lia.
Qed.

(** The result of rounding a mantissa that has enough digits. *)
Lemma binary_round_aux_spec (s : bool) (m e : Z) (l : location) :
  0 <= m -> e <= fexp prec emax (Zdigits2 m + e) ->
  let r := binary_round_aux prec emax s m e l in
  valid_binary prec emax r = true
  /\ (r = S754_zero s \/ r = S754_infinity s
      \/ exists p e', r = S754_finite s p e')
  /\ (fexp prec emax (Zdigits2 m + e) - e < Zdigits2 m ->
      r <> S754_zero s).
Proof.
  intros Hm He. cbv zeta. unfold binary_round_aux.
  pose proof (shr_fexp_spec m e l Hm) as S1. cbv zeta in S1.
  destruct (shr_fexp prec emax m e l) as [r1 e1]. simpl fst in S1.
  simpl snd in S1. destruct S1 as [H1 S1].
  pose proof (round_nearest_even_bounds (shr_m r1) (loc_of_shr_record r1))
    as B.
  set (m1 := round_nearest_even (shr_m r1) (loc_of_shr_record r1)) in *.
  assert (Hm1 : 0 <= m1) by lia.
  pose proof (Zdigits2_mono (shr_m r1) m1 ltac:(lia)) as D1.
  pose proof (Zdigits2_mono m1 (shr_m r1 + 1) ltac:(lia)) as D2.
  pose proof (Zdigits2_succ (shr_m r1) H1) as D3.
  pose proof (shr_fexp_spec m1 e1 loc_Exact Hm1) as S2. cbv zeta in S2.
  destruct (shr_fexp prec emax m1 e1 loc_Exact) as [r2 e2].
  simpl fst in S2. simpl snd in S2. destruct S2 as [H2 S2].
  pose proof (Zdigits2_nonneg m) as N0.
  pose proof (Zdigits2_nonneg (shr_m r1)) as N1.
  destruct (shr_m r2) as [|p|p] eqn:M2; [| |lia].
  - split; [reflexivity|]. split; [now left|].
    intros Hd Hz.
    assert (Z1 : m1 <> 0 -> False).
    { intro Hne. destruct S2 as [(_ & E & _)|(Hn & _ & D)]; [lia|].
      simpl in D. unfold_fexp.
      assert (2 <= Zdigits2 m1 -> False) by lia.
      assert (Zdigits2 m1 = 0 -> False)
        by (intro Z0; apply Zdigits2_zero in Z0; lia).
      destruct S1 as [(_ & E1 & E1')|(Hn1 & E1' & D1')].
      - subst e1. rewrite E1 in *. lia.
      - lia. }
    assert (m1 = 0) by (destruct (Z.eq_dec m1 0); [assumption|tauto]).
    assert (Hr1 : shr_m r1 = 0) by lia.
    destruct S1 as [(_ & E1 & _)|(Hn1 & _ & D1')].
    + rewrite Hr1 in E1. subst m. cbn [Zdigits2] in *. unfold_fexp. lia.
    + rewrite Hr1 in D1'. cbn [Zdigits2] in *. lia.
  - assert (Hcanon : fexp prec emax (Z.pos (digits2_pos p) + e2) = e2).
    { change (Z.pos (digits2_pos p)) with (Zdigits2 (Z.pos p)).
      unfold_fexp.
      destruct S2 as [(Hn2 & E2 & E2')|(Hn2 & E2' & D2')].
      - rewrite E2 in *. subst e2.
        destruct S1 as [(Hn1 & E1 & E1')|(Hn1 & E1' & D1')].
        + subst e1. rewrite E1 in *. lia.
        + lia.
      - rewrite ?M2 in D2'.
        assert (0 < Zdigits2 (Z.pos p)) by (simpl; lia). lia. }
    split; [|split].
    + destruct (e2 <=? emax - prec) eqn:L; [|reflexivity].
      simpl. unfold bounded, canonical_mantissa.
      rewrite Hcanon, Z.eqb_refl, L. reflexivity.
    + right. destruct (e2 <=? emax - prec); [right|left; reflexivity].
      now exists p, e2.
    + intros _. destruct (e2 <=? emax - prec); discriminate.
Qed.

End RoundAux.

Section Division.
Import JsNumber.
Local Open Scope Z_scope.

(** The quotient of two integers is computed with enough digits for the
    rounding: at least 53, or down to the smallest exponent. *)
Lemma SFdiv_core_enough_digits (m1 m2 : positive) :
  let q := fst (fst (SFdiv_core_binary prec emax (Zpos m1) 0 (Zpos m2) 0)) in
  let e := snd (fst (SFdiv_core_binary prec emax (Zpos m1) 0 (Zpos m2) 0)) in
  0 <= q /\ e <= fexp prec emax (Zdigits2 q + e).
Proof.
  cbv zeta. unfold SFdiv_core_binary.
  set (d1 := Zdigits2 (Zpos m1)). set (d2 := Zdigits2 (Zpos m2)).
  set (e := Z.min (fexp prec emax (d1 + 0 - (d2 + 0))) (0 - 0)).
  set (s := 0 - 0 - e).
  set (m' := match s with Z0 => Zpos m1 | Zpos _ => Z.shiftl (Zpos m1) s
                     | Zneg _ => 0 end).
  assert (Hs : 0 <= s) by (unfold s, e; lia).
  assert (Hm' : m' = Zpos m1 * 2 ^ s).
  { unfold m'. destruct s as [|p|p] eqn:E; try lia.
    now rewrite Z.shiftl_mul_pow2. }
  pose proof (Zdigits2_bounds (Zpos m1) eq_refl) as B1.
  pose proof (Zdigits2_bounds (Zpos m2) eq_refl) as B2.
  fold d1 in B1. fold d2 in B2.
  assert (P1 : 0 < d1) by (unfold d1; simpl; lia).
  assert (P2 : 0 < d2) by (unfold d2; simpl; lia).
  pose proof (Z.pow_pos_nonneg 2 s eq_refl Hs) as Ps.
  assert (Hpos : 0 <= m') by nia.
  pose proof (Z.div_pos m' (Zpos m2) Hpos eq_refl) as Hq.
  assert (Hdig : d1 - d2 + s <= Zdigits2 (m' / Zpos m2)).
  { destruct (Z_lt_le_dec (d1 - 1 + s - d2) 0) as [Hk|Hk].
    - pose proof (Zdigits2_nonneg (m' / Zpos m2)). lia.
    - replace (d1 - d2 + s) with ((d1 - 1 + s - d2) + 1) by lia.
      apply Zdigits2_ge_pow; [exact Hk|].
      apply Z.div_le_lower_bound; [lia|].
      assert (E : 2 ^ (d1 - 1 + s) = 2 ^ (d1 - 1 + s - d2) * 2 ^ d2).
      { rewrite <- Z.pow_add_r by lia. f_equal. lia. }
      assert (E2 : 2 ^ (d1 - 1 + s) = 2 ^ (d1 - 1) * 2 ^ s).
      { rewrite <- Z.pow_add_r by lia. reflexivity. }
      pose proof (Z.pow_pos_nonneg 2 (d1 - 1 + s - d2) eq_refl Hk).
      nia. }
  unfold Z.div in Hq, Hdig.
  destruct (Z.div_eucl m' (Zpos m2)) as [q r]. simpl in *.
  split; [exact Hq|]. unfold e, s in *. unfold_fexp. lia.
Qed.

End Division.

Section Subtraction.
Import JsNumber.
Local Open Scope Z_scope.

Lemma SFdiv_integers (s : bool) (m1 m2 : positive) :
  let r := SFdiv prec emax (S754_finite s m1 0) (S754_finite false m2 0) in
  valid_binary prec emax r = true
  /\ (r = S754_zero s \/ r = S754_infinity s
      \/ exists p e, r = S754_finite s p e).
Proof.
  cbv zeta. unfold SFdiv.
  pose proof (SFdiv_core_enough_digits m1 m2) as H. cbv zeta in H.
  destruct (SFdiv_core_binary prec emax (Zpos m1) 0 (Zpos m2) 0)
    as [[q e] l].
  simpl in H. destruct H as [Hq He].
  rewrite xorb_false_r.
  destruct (binary_round_aux_spec s q e l Hq He) as (V & C & _).
  now split.
Qed.

Lemma iter_xO (d : positive) (m : positive) :
  Zpos (Pos.iter xO m d) = Zpos m * 2 ^ Zpos d.
Proof.
  induction d as [|d IH] using Pos.peano_ind.
  - simpl. lia.
  - rewrite Pos.iter_succ, Pos2Z.inj_succ, Z.pow_succ_r by lia.
    rewrite Pos2Z.inj_xO, IH. lia.
Qed.

Lemma shl_align_value (m : positive) (e e' : Z) :
  e' <= e ->
  Zpos (fst (shl_align m e e')) = Zpos m * 2 ^ (e - e')
  /\ snd (shl_align m e e') = e'.
Proof.
  intro H. unfold shl_align.
  destruct (e' - e) as [|d|d] eqn:E; cbn [fst snd]; try lia.
  - replace (e - e') with 0 by lia. rewrite Z.pow_0_r. lia.
  - rewrite iter_xO. replace (e - e') with (Zpos d) by lia. lia.
Qed.

Lemma Zdigits2_shift (m : Z) (k : Z) :
  0 < m -> 0 <= k -> Zdigits2 (m * 2 ^ k) = Zdigits2 m + k.
Proof.
  intros Hm Hk. pose proof (Z.pow_pos_nonneg 2 k eq_refl Hk).
  rewrite !Zdigits2_log2 by nia. rewrite Z.log2_mul_pow2 by lia. lia.
Qed.

(** Rounding a nonzero integer multiple of a power of two that is at
    least the smallest one of the format: the result is not zero and has
    the sign given. *)
Lemma binary_round_spec (s : bool) (m : positive) (e : Z) :
  emin prec emax <= e ->
  let r := binary_round prec emax s m e in
  valid_binary prec emax r = true
  /\ (r = S754_infinity s \/ exists p e', r = S754_finite s p e').
Proof.
  intro He. cbv zeta. unfold binary_round.
  set (e' := fexp prec emax (Zpos (digits2_pos m) + e)).
  destruct (Z_lt_le_dec e' e) as [Hlt|Hle].
  - destruct (shl_align_value m e e' ltac:(lia)) as [Hv He'].
    destruct (shl_align m e e') as [mz ez]. cbn [fst snd] in Hv, He'.
    subst ez.
    assert (Hd : Zdigits2 (Zpos mz) + e' = Zpos (digits2_pos m) + e).
    { rewrite Hv, Zdigits2_shift by lia. cbn [Zdigits2]. lia. }
    destruct (binary_round_aux_spec s (Zpos mz) e' loc_Exact) as (V & C & N).
    + lia.
    + rewrite Hd. fold e'. lia.
    + split; [exact V|].
      destruct C as [C|[C|C]]; [|now left|now right].
      exfalso. revert C. apply N. rewrite Hd. fold e'. cbn [Zdigits2]. lia.
  - assert (Hsh : shl_align m e e' = (m, e)).
    { unfold shl_align. destruct (e' - e) eqn:E; try reflexivity. lia. }
    rewrite Hsh.
    destruct (binary_round_aux_spec s (Zpos m) e loc_Exact) as (V & C & N).
    + lia.
    + exact Hle.
    + split; [exact V|].
      destruct C as [C|[C|C]]; [|now left|now right].
      exfalso. revert C. apply N. cbn [Zdigits2]. unfold e' in *.
      unfold_fexp. lia.
Qed.

Lemma canonical_exponent (m : positive) (e : Z) :
  canonical_mantissa prec emax m e = true ->
  emin prec emax <= e
  /\ Zpos (digits2_pos m) <= prec
  /\ (emin prec emax < e -> Zpos (digits2_pos m) = prec).
Proof.
  unfold canonical_mantissa. intro H. apply Z.eqb_eq in H.
  unfold_fexp. lia.
Qed.

(** Of two positive numbers of the format, the one with the smaller
    exponent is the smaller. *)
Lemma canonical_lt (mx my : positive) (ex ey : Z) :
  canonical_mantissa prec emax mx ex = true ->
  canonical_mantissa prec emax my ey = true ->
  ex < ey -> Zpos mx < Zpos my * 2 ^ (ey - ex).
Proof.
  intros Cx Cy H.
  destruct (canonical_exponent mx ex Cx) as (Ex & Dx & _).
  destruct (canonical_exponent my ey Cy) as (Ey & _ & Dy).
  specialize (Dy ltac:(lia)).
  pose proof (Zdigits2_bounds (Zpos mx) eq_refl) as [_ Bx].
  pose proof (Zdigits2_bounds (Zpos my) eq_refl) as [By _].
  simpl Zdigits2 in Bx, By. rewrite Dy in By.
  assert (Zpos mx < 2 ^ prec).
  { eapply Z.lt_le_trans; [exact Bx|]. apply Z.pow_le_mono_r; lia. }
  assert (2 ^ 1 <= 2 ^ (ey - ex)) by (apply Z.pow_le_mono_r; lia).
  change (2 ^ prec) with (2 * 2 ^ (prec - 1)) in H0.
  change (2 ^ 1) with 2 in H1. nia.
Qed.

End Subtraction.

Section SignOfDifference.
Import JsNumber.
Local Open Scope Z_scope.

Lemma SFcompare_finite_exact (sx sy : bool) (mx my : positive) (ex ey : Z) :
  canonical_mantissa prec emax mx ex = true ->
  canonical_mantissa prec emax my ey = true ->
  SFcompare (S754_finite sx mx ex) (S754_finite sy my ey)
  = Some (cond_Zopp sx (Zpos mx * 2 ^ (ex - Z.min ex ey))
          ?= cond_Zopp sy (Zpos my * 2 ^ (ey - Z.min ex ey))).
Proof.
  intros Cx Cy.
  assert (Px : 0 < 2 ^ (ex - Z.min ex ey))
    by (apply Z.pow_pos_nonneg; lia).
  assert (Py : 0 < 2 ^ (ey - Z.min ex ey))
    by (apply Z.pow_pos_nonneg; lia).
  assert (Hcmp : match ex ?= ey with
                 | Eq => Pos.compare_cont Eq mx my
                 | Lt => Lt
                 | Gt => Gt
                 end
                 = (Zpos mx * 2 ^ (ex - Z.min ex ey)
                    ?= Zpos my * 2 ^ (ey - Z.min ex ey))).
  { destruct (Z.compare_spec ex ey) as [E|E|E].
    - subst ey. rewrite Z.min_id, Z.sub_diag, Z.pow_0_r, !Z.mul_1_r.
      rewrite Pos.compare_cont_spec. cbn [Z.compare].
      now destruct (mx ?= my)%positive.
    - rewrite Z.min_l, Z.sub_diag, Z.pow_0_r, Z.mul_1_r by lia.
      symmetry. apply Z.compare_lt_iff. now apply canonical_lt.
    - rewrite Z.min_r, Z.sub_diag, Z.pow_0_r, Z.mul_1_r by lia.
      symmetry. apply Z.compare_gt_iff. now apply canonical_lt. }
  set (X := Zpos mx * 2 ^ (ex - Z.min ex ey)) in *.
  set (Y := Zpos my * 2 ^ (ey - Z.min ex ey)) in *.
  assert (HX : 0 < X) by (unfold X; nia).
  assert (HY : 0 < Y) by (unfold Y; nia).
  destruct sx, sy; cbn [cond_Zopp SFcompare]; f_equal.
  - rewrite Z.compare_opp, (Z.compare_antisym X Y), <- Hcmp.
    destruct (ex ?= ey); try reflexivity.
  - symmetry. apply Z.compare_lt_iff. lia.
  - symmetry. apply Z.compare_gt_iff. lia.
  - exact Hcmp.
Qed.

(** On binary64 the difference of two numbers is negative, zero or
    positive as the first is less than, equal to or greater than the
    second. *)
Lemma sign_of_sub (x y : spec_float) :
  isBinary64 x = true -> isBinary64 y = true ->
  sign (sub x y) = order x y.
Proof.
  unfold isBinary64, sub, order. intros Vx Vy.
  destruct x as [sx|sx| |sx mx ex], y as [sy|sy| |sy my ey];
    try (repeat match goal with b : bool |- _ => destruct b end;
         reflexivity).
  simpl in Vx, Vy. unfold bounded in Vx, Vy.
  apply andb_true_iff in Vx, Vy. destruct Vx as [Cx _], Vy as [Cy _].
  rewrite (SFcompare_finite_exact sx sy mx my ex ey Cx Cy).
  destruct (canonical_exponent mx ex Cx) as (Ex & _).
  destruct (canonical_exponent my ey Cy) as (Ey & _).
  unfold SFsub.
  destruct (shl_align_value mx ex (Z.min ex ey) ltac:(lia)) as [-> _].
  destruct (shl_align_value my ey (Z.min ex ey) ltac:(lia)) as [-> _].
  set (X := cond_Zopp sx (Zpos mx * 2 ^ (ex - Z.min ex ey))).
  set (Y := cond_Zopp sy (Zpos my * 2 ^ (ey - Z.min ex ey))).
  rewrite (Z.compare_sub X Y).
  destruct (X - Y) as [|p|p] eqn:D; cbn [binary_normalize].
  - reflexivity.
  - destruct (binary_round_spec false p (Z.min ex ey) ltac:(lia))
      as (_ & [->|(q & e' & ->)]); reflexivity.
  - destruct (binary_round_spec true p (Z.min ex ey) ltac:(lia))
      as (_ & [->|(q & e' & ->)]); reflexivity.
Qed.

End SignOfDifference.

Section ParsedNumbers.
Import JsNumber.

Lemma ofDecimal_binary64 (neg : bool) (m : N) (e10 : Z) :
  isBinary64 (ofDecimal neg m e10) = true
  /\ isNaN (ofDecimal neg m e10) = false.
Proof.
  unfold ofDecimal, isBinary64. destruct m as [|p]; [now split|].
  cbv zeta.
  set (num := Z.to_pos _). set (den := Z.to_pos _).
  destruct (SFdiv_integers neg num den) as (V & [E|[E|(q & e & E)]]);
    cbv zeta in V, E; rewrite E in *; now split.
Qed.

Lemma ofDecimal_not_nan (neg : bool) (m : N) (e10 : Z) :
  isNaN (ofDecimal neg m e10) = false.
Proof. apply ofDecimal_binary64. Qed.

Lemma strUnsignedDecimalLiteral_binary64 (neg : bool) (s : string) :
  isBinary64 (strUnsignedDecimalLiteral neg s) = true.
Proof.
  unfold strUnsignedDecimalLiteral.
  destruct (String.prefix "Infinity" s); [reflexivity|].
  destruct (readDigits 0 0 s) as [[i ni] s1].
  destruct s1 as [|c s2].
  - destruct ni; [reflexivity|apply ofDecimal_binary64].
  - assert (Hint : isBinary64
                     match ni with
                     | O => NaN
                     | S _ => ofDecimal neg i (exponentPart (String c s2))
                     end = true).
    { destruct ni; [reflexivity|apply ofDecimal_binary64]. }
    assert (Hfrac : isBinary64
                      (let '(m, nf, s3) := readDigits i 0 s2 in
                       match ni, nf with
                       | O, O => NaN
                       | _, _ =>
                           ofDecimal neg m (exponentPart s3 - Z.of_nat nf)
                       end) = true).
    { destruct (readDigits i 0 s2) as [[m nf] s3].
      destruct ni, nf; try reflexivity; apply ofDecimal_binary64. }
    destruct c as [[] [] [] [] [] [] [] []]; first [exact Hint|exact Hfrac].
Qed.

Lemma parseFloat_binary64 (s : string) : isBinary64 (parseFloat s) = true.
Proof.
  unfold parseFloat.
  destruct (JsString.trimStart s) as [|c r].
  - apply strUnsignedDecimalLiteral_binary64.
  - pose proof (strUnsignedDecimalLiteral_binary64 false (String c r)) as H.
    pose proof (strUnsignedDecimalLiteral_binary64 false r) as Hp.
    pose proof (strUnsignedDecimalLiteral_binary64 true r) as Hm.
    destruct c as [[] [] [] [] [] [] [] []];
      first [exact H|exact Hp|exact Hm].
Qed.

(** The rounding of [parseFloat] on literals whose binary64 value is
    known: 0.1, a tie between two numbers, an overflow, the smallest
    number, and a text that is no number. *)
Lemma parseFloat_examples :
  parseFloat "0.1" = S754_finite false 7205759403792794 (-56)
  /\ parseFloat "9007199254740993" = S754_finite false 4503599627370496 1
  /\ parseFloat "1e400" = S754_infinity false
  /\ parseFloat "5e-324" = S754_finite false 1 (-1074)
  /\ parseFloat "  -12.5e1xyz" = ofZ (-125)
  /\ parseFloat "TBA" = NaN.
Proof. repeat split; vm_compute; reflexivity. Qed.

End ParsedNumbers.

(** ** Reading the start time of a label *)

Section ReadingLabels.
Import JsString JsNumber.

Lemma digit_is_no_punctuation (c : ascii) :
  isDigit c = true ->
  isWhiteSpace c = false
  /\ Ascii.eqb c "-" = false /\ Ascii.eqb c ":" = false
  /\ Ascii.eqb c "+" = false /\ Ascii.eqb c "." = false
  /\ Ascii.eqb c "I" = false.
Proof.
  destruct c as [[] [] [] [] [] [] [] []]; intro H;
    try discriminate H; repeat split; reflexivity.
Qed.

Lemma includes_app (c : ascii) (a b : string) :
  includes c (a ++ b) = includes c a || includes c b.
Proof.
  induction a as [|x a IH]; simpl; [reflexivity|].
  now rewrite IH, orb_assoc.
Qed.

Lemma digits_include_no_hyphen (s : string) :
  allDigits s = true -> includes "-" s = false.
Proof.
  induction s as [|c s IH]; simpl; [reflexivity|].
  intro H. apply andb_true_iff in H. destruct H as [Hc Hs].
  destruct (digit_is_no_punctuation c Hc) as (_ & -> & _). now apply IH.
Qed.

Lemma digits_include_no_colon (s : string) :
  allDigits s = true -> includes ":" s = false.
Proof.
  induction s as [|c s IH]; simpl; [reflexivity|].
  intro H. apply andb_true_iff in H. destruct H as [Hc Hs].
  destruct (digit_is_no_punctuation c Hc) as (_ & _ & -> & _). now apply IH.
Qed.

(** The first element of [split]: what comes before the first
    separator. *)
Lemma split_from_first (sep : ascii) (p q : string) :
  includes sep p = false ->
  fst (split_from sep (p ++ String sep q)) = p.
Proof.
  induction p as [|c p IH]; simpl.
  - intros _. destruct (split_from sep q). now rewrite Ascii.eqb_refl.
  - intro H. apply orb_false_iff in H. destruct H as [Hc Hp].
    specialize (IH Hp). destruct (split_from sep (p ++ String sep q)).
    rewrite Hc. simpl in *. now rewrite IH.
Qed.

Lemma replace_first (pat : ascii) (by_ p q : string) :
  includes pat p = false ->
  replace pat by_ (p ++ String pat q) = p ++ by_ ++ q.
Proof.
  induction p as [|c p IH]; simpl.
  - intros _. now rewrite Ascii.eqb_refl.
  - intro H. apply orb_false_iff in H. destruct H as [-> Hp].
    now rewrite IH.
Qed.

Lemma trimEnd_digits_space (s : string) :
  allDigits s = true -> trimEnd (s ++ " ") = s.
Proof.
  induction s as [|c s IH]; simpl; [reflexivity|].
  intro H. apply andb_true_iff in H. destruct H as [Hc Hs].
  rewrite (IH Hs).
  destruct (digit_is_no_punctuation c Hc) as (-> & _).
  destruct s; reflexivity.
Qed.

Lemma trimEnd_app (a b : string) :
  trimEnd b <> "" -> trimEnd (a ++ b) = a ++ trimEnd b.
Proof.
  intro Hb. induction a as [|c a IH]; simpl; [reflexivity|].
  rewrite IH. destruct (a ++ trimEnd b) eqn:E; [|reflexivity].
  destruct a; simpl in E; [contradiction|discriminate].
Qed.

Lemma digitsValueFrom_app (a b : string) (acc : N) :
  allDigits a = true ->
  digitsValueFrom acc (a ++ b) = digitsValueFrom (digitsValueFrom acc a) b.
Proof.
  revert acc. induction a as [|c a IH]; intros acc H; simpl; [reflexivity|].
  simpl in H. apply andb_true_iff in H. destruct H as [Hc Ha].
  unfold isDigit in Hc. destruct (digitValue c); [|discriminate].
  now apply IH.
Qed.

Lemma readDigits_app (a b : string) (acc : N) (n : nat) :
  allDigits a = true ->
  readDigits acc n (a ++ b) =
  readDigits (digitsValueFrom acc a) (n + String.length a) b.
Proof.
  revert acc n. induction a as [|c a IH]; intros acc n H; simpl.
  - now rewrite Nat.add_0_r.
  - simpl in H. apply andb_true_iff in H. destruct H as [Hc Ha].
    unfold isDigit in Hc. destruct (digitValue c); [|discriminate].
    rewrite (IH _ _ Ha). now rewrite Nat.add_succ_r.
Qed.

(** [parseFloat] of digits, a point and digits. *)
Lemma parseFloat_decimal (int frac : string) :
  int <> "" -> allDigits int = true -> allDigits frac = true ->
  parseFloat (int ++ "." ++ frac) = decimalLiteral int frac.
Proof.
  intros Hne Hint Hfrac.
  destruct int as [|c int]; [contradiction|]. clear Hne.
  pose proof Hint as Hc. simpl in Hc. apply andb_true_iff in Hc.
  destruct Hc as [Hc _].
  destruct (digit_is_no_punctuation c Hc) as (Hws & Hm & _ & Hp & _ & HI).
  unfold parseFloat. simpl append. simpl trimStart. rewrite Hws.
  assert (Hlit : strUnsignedDecimalLiteral false
                   (String c (int ++ "." ++ frac))
                 = decimalLiteral (String c int) frac).
  { unfold strUnsignedDecimalLiteral.
    assert (Hpre : String.prefix "Infinity" (String c (int ++ "." ++ frac))
                   = false).
    { change (String.prefix "Infinity" (String c (int ++ "." ++ frac)))
        with (if Ascii.ascii_dec "I" c
              then String.prefix "nfinity" (int ++ "." ++ frac)
              else false).
      apply Ascii.eqb_neq in HI.
      destruct (Ascii.ascii_dec "I" c) as [E|E]; [|reflexivity].
      symmetry in E. contradiction. }
    rewrite Hpre.
    change (String c (int ++ "." ++ frac))
      with (String c int ++ String "." frac).
    rewrite (readDigits_app _ _ _ _ Hint).
    change (readDigits (digitsValueFrom 0 (String c int))
                       (0 + String.length (String c int))
                       (String "." frac))
      with (digitsValueFrom 0 (String c int),
            S (String.length int), String "." frac).
    cbv iota beta.
    rewrite <- (append_nil_r frac) at 1.
    rewrite (readDigits_app _ _ _ _ Hfrac). simpl readDigits.
    unfold decimalLiteral.
    rewrite (digitsValueFrom_app _ frac _ Hint). reflexivity. }
  clear Hint Hc Hws HI. simpl append in Hlit.
  destruct c as [[] [] [] [] [] [] [] []];
    try discriminate Hm; try discriminate Hp; exact Hlit.
Qed.

End ReadingLabels.

Section TimeOrder.
Import JsString JsNumber Timetable.

Lemma parseTime_start_time (hh mm rest : string) :
  hh <> "" -> mm <> "" -> allDigits hh = true -> allDigits mm = true ->
  parseTime (hh ++ ":" ++ mm ++ " - " ++ rest) = decimalLiteral hh mm.
Proof.
  intros Hh Hm Dh Dm. rewrite parseTime_no_catch.
  replace (hh ++ ":" ++ mm ++ " - " ++ rest)
    with ((hh ++ ":" ++ mm ++ " ") ++ String "-" (" " ++ rest))
    by (rewrite !append_assoc; reflexivity).
  rewrite split_from_first.
  2:{ rewrite !includes_app, (digits_include_no_hyphen hh Dh),
        (digits_include_no_hyphen mm Dm). reflexivity. }
  assert (Htrim : trim (hh ++ ":" ++ mm ++ " ") = hh ++ String ":" mm).
  { unfold trim.
    assert (Hstart : trimStart (hh ++ ":" ++ mm ++ " ")
                     = hh ++ ":" ++ mm ++ " ").
    { destruct hh as [|c hh]; [contradiction|]. simpl.
      simpl in Dh. apply andb_true_iff in Dh. destruct Dh as [Dc _].
      now destruct (digit_is_no_punctuation c Dc) as (-> & _). }
    rewrite Hstart.
    replace (hh ++ ":" ++ mm ++ " ") with ((hh ++ ":") ++ (mm ++ " "))
      by (rewrite !append_assoc; reflexivity).
    rewrite trimEnd_app; rewrite (trimEnd_digits_space mm Dm);
      [|exact Hm].
    rewrite append_assoc. reflexivity. }
  rewrite Htrim, replace_first by (now apply digits_include_no_colon).
  now apply parseFloat_decimal.
Qed.

Lemma startsWithTime_key (t : string) :
  startsWithTime t -> isNaN (parseTime t) = false.
Proof.
  intros (hh & mm & rest & -> & Hh & Hm & Dh & Dm).
  rewrite parseTime_start_time by assumption.
  apply ofDecimal_not_nan.
Qed.

Lemma parseTime_binary64 (t : string) : isBinary64 (parseTime t) = true.
Proof. rewrite parseTime_no_catch. apply parseFloat_binary64. Qed.

(** The comparator of the time slots orders them by key. *)
Lemma compareTimes_order (a b : string) :
  compareTimes a b = order (parseTime a) (parseTime b).
Proof.
  unfold compareTimes. apply sign_of_sub; apply parseTime_binary64.
Qed.

Lemma compareTimes_total (a b : string) :
  compareTimes a b = Gt -> compareTimes b a <> Gt.
Proof. rewrite !compareTimes_order. apply order_total. Qed.

Lemma compareTimes_trans (a b c : string) :
  isNaN (parseTime a) = false -> isNaN (parseTime b) = false ->
  isNaN (parseTime c) = false ->
  JsArray.notAfter compareTimes a b -> JsArray.notAfter compareTimes b c ->
  JsArray.notAfter compareTimes a c.
Proof.
  unfold JsArray.notAfter. rewrite !compareTimes_order.
  apply order_trans.
Qed.

Lemma StronglySorted_weaken {A} (R R' : A -> A -> Prop) (l : list A) :
  (forall a b, In a l -> In b l -> R a b -> R' a b) ->
  StronglySorted R l -> StronglySorted R' l.
Proof.
  intros H S. induction S as [|x l Sl IH Hx].
  - constructor.
  - constructor.
    + apply IH. intros a b Ha Hb. apply H; now right.
    + rewrite Forall_forall in Hx |- *. intros y Hy.
      apply H; [now left|now right|now apply Hx].
Qed.

Lemma sortedTimes_ascending (data : ScheduleMapping) :
  (forall t, In t (sortedTimes data) -> isNaN (parseTime t) = false) ->
  StronglySorted keyLe (sortedTimes data).
Proof.
  intro Hnum.
  apply (StronglySorted_weaken (JsArray.notAfter compareTimes)).
  - intros a b Ha Hb Hab. unfold keyLe.
    apply leb_order; auto.
    unfold JsArray.notAfter in Hab. now rewrite compareTimes_order in Hab.
  - unfold sortedTimes.
    apply (sort_sorted compareTimes
             (fun t => isNaN (parseTime t) = false)
             compareTimes_total compareTimes_trans).
    rewrite Forall_forall. intros t Ht. apply Hnum.
    unfold sortedTimes. now apply sort_In.
Qed.

End TimeOrder.

(** C4.  The key of a label ["HH:MM - <end>"] is the number written
    [HH.MM], the digits after the colon read as decimals: 10.3 for 10:30
    and 10.45 for 10:45, not the 10.5 and 10.75 of the hours they denote.
    The columns of data whose labels all have this form are in ascending
    order of key. *)
Theorem key_reads_minutes_as_decimals :
  (forall hh mm rest : string,
      hh <> "" -> mm <> "" ->
      JsNumber.allDigits hh = true -> JsNumber.allDigits mm = true ->
      Timetable.parseTime (hh ++ ":" ++ mm ++ " - " ++ rest)
      = JsNumber.decimalLiteral hh mm)
  /\ (Timetable.parseTime "10:30 - 11:30" = JsNumber.decimalLiteral "10" "3"
      /\ Timetable.parseTime "10:30 - 11:30"
         <> JsNumber.decimalLiteral "10" "5")
  /\ (Timetable.parseTime "10:45 - 11:45" = JsNumber.decimalLiteral "10" "45"
      /\ Timetable.parseTime "10:45 - 11:45"
         <> JsNumber.decimalLiteral "10" "75")
  /\ forall data : Timetable.ScheduleMapping,
       (forall t, In t (Timetable.sortedTimes data) ->
                  Timetable.startsWithTime t) ->
       StronglySorted Timetable.keyLe (Timetable.sortedTimes data).
Proof.
  split; [exact parseTime_start_time|].
  split; [split; [vm_compute; reflexivity|vm_compute; discriminate]|].
  split; [split; [vm_compute; reflexivity|vm_compute; discriminate]|].
  intros data H. apply sortedTimes_ascending.
  intros t Ht. now apply startsWithTime_key, H.
Qed.

Lemma key_reads_minutes_as_decimals_witness :
  Timetable.parseTime ("9" ++ ":" ++ "05" ++ " - " ++ "10:00")
  = JsNumber.decimalLiteral "9" "05"
  /\ StronglySorted Timetable.keyLe (Timetable.sortedTimes Examples.sparse).
Proof.
  destruct key_reads_minutes_as_decimals as (Hkey & _ & _ & Hsorted).
  split.
  - apply Hkey; (discriminate || reflexivity).
  - apply Hsorted. intros t Ht. vm_compute in Ht.
    destruct Ht as [<-|[<-|[<-|[]]]].
    + exists "9", "00", "10:00".
      repeat split; (discriminate || reflexivity).
    + exists "10", "30", "10:45".
      repeat split; (discriminate || reflexivity).
    + exists "10", "45", "11:30".
      repeat split; (discriminate || reflexivity).
Defined.

(** ** The CSV document *)

Section CsvFacts.
Import JsString Csv.

Lemma fold_left_append_rows {B} (f : B -> string) (l : list B)
      (acc : string) :
  fold_left (fun csv row => csv ++ f row) l acc
  = acc ++ fold_left (fun csv row => csv ++ f row) l "".
Proof.
  revert acc. induction l as [|x l IH]; intro acc; simpl.
  - now rewrite append_nil_r.
  - rewrite (IH (acc ++ f x)), (IH (f x)). apply append_assoc.
Qed.

Lemma toCsv_cons (row : list string) (rows : list (list string)) :
  toCsv (row :: rows)
  = join "," (map escapeField row) ++ str1 newline ++ toCsv rows.
Proof.
  unfold toCsv. simpl fold_left.
  rewrite fold_left_append_rows
    with (f := fun row => join "," (map escapeField row) ++ str1 newline).
  apply append_assoc.
Qed.

Lemma downloadCsv_toCsv (table : list (list string)) :
  downloadCsv (Some table) = Some (toCsv (map (map trim) table)).
Proof.
  unfold downloadCsv, toCsv. f_equal.
  assert (H : forall acc : string,
             fold_left
               (fun csv row =>
                  let rowData := map cellField row in
                  csv ++ join "," rowData ++ str1 newline) table acc
             = fold_left
                 (fun csv row =>
                    let rowData := map escapeField row in
                    csv ++ join "," rowData ++ str1 newline)
                 (map (map trim) table) acc).
  { induction table as [|row table IH]; intro acc; simpl.
    - reflexivity.
    - rewrite IH. unfold cellField. now rewrite map_map. }
  apply H.
Qed.

Lemma replaceAll_length (s : string) :
  String.length s <= String.length (replaceAll dquote twoQuotes s).
Proof.
  induction s as [|c s IH]; simpl; [lia|].
  destruct (Ascii.eqb c dquote); simpl; lia.
Qed.

Lemma append_length (a b : string) :
  String.length (a ++ b) = String.length a + String.length b.
Proof. induction a as [|c a IH]; simpl; [reflexivity|now rewrite IH]. Qed.

(** A field is written as it is exactly when it has no comma and no
    quote. *)
Lemma escapeField_verbatim (text : string) :
  escapeField text = text
  <-> includes comma text || includes dquote text = false.
Proof.
  unfold escapeField.
  destruct (includes comma text || includes dquote text); split;
    try reflexivity; try discriminate.
  intro H. apply (f_equal String.length) in H.
  simpl in H. rewrite append_length in H. simpl in H.
  pose proof (replaceAll_length text). lia.
Qed.

End CsvFacts.

(** C5.  A field with a comma or a quote is written between quotes with
    each of its quotes doubled, and a field is written as it is exactly
    when it has neither.  The document is, row after row, the fields of the
    row joined by commas and followed by a newline, the last row too.  The
    handler does this on the trimmed text of the cells. *)
Theorem csv_quotes_fields_and_ends_rows :
  (forall text : string,
      (JsString.includes JsString.comma text
       || JsString.includes JsString.dquote text = true ->
       Csv.escapeField text
       = JsString.str1 JsString.dquote
         ++ JsString.replaceAll JsString.dquote Csv.twoQuotes text
         ++ JsString.str1 JsString.dquote)
      /\ (Csv.escapeField text = text
          <-> JsString.includes JsString.comma text
              || JsString.includes JsString.dquote text = false))
  /\ Csv.toCsv [] = ""
  /\ (forall (row : list string) (rows : list (list string)),
         Csv.toCsv (row :: rows)
         = JsString.join "," (map Csv.escapeField row)
           ++ JsString.str1 JsString.newline ++ Csv.toCsv rows)
  /\ Csv.escapeField Examples.roomB = Examples.roomBEscaped
  /\ Csv.escapeField "Math, Sec A"
     = JsString.str1 JsString.dquote ++ "Math, Sec A"
       ++ JsString.str1 JsString.dquote
  /\ forall table : list (list string),
       Csv.downloadCsv (Some table)
       = Some (Csv.toCsv (map (map JsString.trim) table)).
Proof.
  split.
  { intro text. split; [|apply escapeField_verbatim].
    intro H. unfold Csv.escapeField. now rewrite H. }
  split; [reflexivity|].
  split; [exact toCsv_cons|].
  split; [reflexivity|].
  split; [reflexivity|].
  exact downloadCsv_toCsv.
Qed.

Lemma csv_quotes_fields_and_ends_rows_witness :
  Csv.escapeField "a,b"
  = JsString.str1 JsString.dquote ++ "a,b" ++ JsString.str1 JsString.dquote
  /\ Csv.escapeField "Day" = "Day".
Proof.
  destruct csv_quotes_fields_and_ends_rows as (Hfield & _).
  split.
  - apply (Hfield "a,b"). reflexivity.
  - apply (Hfield "Day"). reflexivity.
Defined.

(** ** Reading the document back *)

Section RoundTrip.
Import JsString Csv.

Lemma split_cons (sep : ascii) (p q : string) :
  includes sep p = false ->
  split sep (p ++ String sep q) = p :: split sep q.
Proof.
  unfold split. induction p as [|c p IH]; simpl.
  - intros _. destruct (split_from sep q). now rewrite Ascii.eqb_refl.
  - intro H. apply orb_false_iff in H. destruct H as [Hc Hp].
    specialize (IH Hp). destruct (split_from sep (p ++ String sep q)).
    rewrite Hc. destruct (split_from sep q). now inversion IH.
Qed.

(** The segments of [split] hold no separator. *)
Lemma split_segments (sep : ascii) (s x : string) :
  In x (split sep s) -> includes sep x = false.
Proof.
  unfold split. revert x. induction s as [|c s IH]; simpl; intros x Hx.
  - destruct Hx as [<-|[]]. reflexivity.
  - destruct (split_from sep s) as [y r].
    destruct (Ascii.eqb c sep) eqn:E.
    + destruct Hx as [<-|Hx]; [reflexivity|]. now apply IH.
    + destruct Hx as [<-|Hx].
      * simpl. rewrite E. apply IH. now left.
      * apply IH. now right.
Qed.

Lemma includes_replaceAll (c : ascii) (s : string) :
  includes c (replaceAll dquote twoQuotes s) = includes c s.
Proof.
  induction s as [|x s IH]; [reflexivity|].
  cbn [replaceAll]. destruct (Ascii.eqb x dquote) eqn:E.
  - cbn [twoQuotes append includes]. rewrite IH.
    apply Ascii.eqb_eq in E. subst x.
    now destruct (Ascii.eqb dquote c).
  - cbn [includes]. now rewrite IH.
Qed.

Lemma includes_escapeField (text : string) :
  includes newline (escapeField text) = includes newline text.
Proof.
  unfold escapeField.
  destruct (includes comma text || includes dquote text); [|reflexivity].
  rewrite !includes_app, includes_replaceAll. simpl.
  now rewrite orb_false_r.
Qed.

Lemma includes_join (fields : list string) :
  Forall (fun f => includes newline f = false) fields ->
  includes newline (join "," (map escapeField fields)) = false.
Proof.
  induction 1 as [|f fields Hf Hfs IH]; [reflexivity|].
  unfold join in *. simpl.
  destruct (map escapeField fields) eqn:E.
  - now rewrite includes_escapeField.
  - rewrite includes_app, includes_escapeField, Hf. simpl. exact IH.
Qed.

Lemma split_toCsv (rows : list (list string)) :
  Forall (Forall (fun f => includes newline f = false)) rows ->
  split newline (toCsv rows)
  = (map (fun row => join "," (map escapeField row)) rows ++ [""])%list.
Proof.
  induction 1 as [|row rows Hrow Hrows IH]; [reflexivity|].
  rewrite toCsv_cons. simpl map. simpl app.
  change (str1 newline ++ toCsv rows) with (String newline (toCsv rows)).
  rewrite split_cons by (now apply includes_join).
  now rewrite IH.
Qed.

Lemma splitRows_toCsv (rows : list (list string)) :
  Forall (Forall (fun f => includes newline f = false)) rows ->
  splitRows (toCsv rows)
  = map (fun row => join "," (map escapeField row)) rows.
Proof.
  intro H. unfold splitRows. rewrite (split_toCsv rows H).
  rewrite rev_app_distr. simpl. apply rev_involutive.
Qed.

(** Text without commas and quotes stays in the current field. *)
Lemma splitFieldsFrom_plain (inQuotes : bool) (p t : string) :
  includes comma p = false -> includes dquote p = false ->
  splitFieldsFrom inQuotes (p ++ t)
  = (p ++ fst (splitFieldsFrom inQuotes t),
     snd (splitFieldsFrom inQuotes t)).
Proof.
  induction p as [|c p IH]; simpl; intros Hc Hq.
  - now destruct (splitFieldsFrom inQuotes t).
  - apply orb_false_iff in Hc, Hq.
    destruct Hc as [Hc Hc'], Hq as [Hq Hq'].
    rewrite Hq, Hc. simpl. now rewrite (IH Hc' Hq').
Qed.

(** The body of a quoted field and its closing quote stay in the current
    field, and leave the reader outside quotes. *)
Lemma splitFieldsFrom_quoted (text t : string) :
  splitFieldsFrom true
    (replaceAll dquote twoQuotes text ++ String dquote t)
  = (replaceAll dquote twoQuotes text
     ++ String dquote (fst (splitFieldsFrom false t)),
     snd (splitFieldsFrom false t)).
Proof.
  induction text as [|c text IH]; simpl.
  - now destruct (splitFieldsFrom false t).
  - destruct (Ascii.eqb c dquote) eqn:E; simpl.
    + now rewrite IH.
    + rewrite E, andb_false_r. now rewrite IH.
Qed.

Lemma splitFieldsFrom_escaped (text t : string) :
  splitFieldsFrom false (escapeField text ++ t)
  = (escapeField text ++ fst (splitFieldsFrom false t),
     snd (splitFieldsFrom false t)).
Proof.
  unfold escapeField.
  destruct (includes comma text || includes dquote text) eqn:E.
  - rewrite !append_assoc. simpl.
    rewrite splitFieldsFrom_quoted. reflexivity.
  - apply orb_false_iff in E. destruct E as [Hc Hq].
    now apply splitFieldsFrom_plain.
Qed.

Lemma splitFields_join (fields : list string) :
  fields <> [] ->
  splitFields (join "," (map escapeField fields)) = map escapeField fields.
Proof.
  unfold splitFields, join.
  induction fields as [|f fields IH]; [contradiction|]. intros _.
  destruct fields as [|g fields].
  - simpl. rewrite <- (append_nil_r (escapeField f)) at 1.
    rewrite splitFieldsFrom_escaped. simpl. now rewrite append_nil_r.
  - assert (Hne : g :: fields <> []) by discriminate.
    specialize (IH Hne).
    change (String.concat "," (map escapeField (f :: g :: fields)))
      with (escapeField f
            ++ String comma
                 (String.concat "," (map escapeField (g :: fields)))).
    rewrite splitFieldsFrom_escaped.
    change (splitFieldsFrom false
              (String comma
                 (String.concat "," (map escapeField (g :: fields)))))
      with (let (x, r) :=
              splitFieldsFrom false
                (String.concat "," (map escapeField (g :: fields))) in
            (EmptyString, x :: r)).
    destruct (splitFieldsFrom false
                (String.concat "," (map escapeField (g :: fields))))
      as [x r].
    simpl fst. simpl snd. rewrite append_nil_r.
    change (map escapeField (f :: g :: fields))
      with (escapeField f :: map escapeField (g :: fields)).
    now rewrite <- IH.
Qed.

Lemma unescapeQuoted_body (text : string) :
  unescapeQuoted
    (replaceAll dquote twoQuotes text ++ str1 dquote)
  = text.
Proof.
  induction text as [|c text IH]; simpl; [reflexivity|].
  destruct (Ascii.eqb c dquote) eqn:E; simpl.
  - apply Ascii.eqb_eq in E. subst c. now rewrite IH.
  - rewrite E. now rewrite IH.
Qed.

Lemma unescapeField_escapeField (text : string) :
  unescapeField (escapeField text) = text.
Proof.
  unfold escapeField.
  destruct (includes comma text || includes dquote text) eqn:E.
  - simpl. apply unescapeQuoted_body.
  - apply orb_false_iff in E. destruct E as [_ Hq].
    destruct text as [|c text]; [reflexivity|].
    simpl in *. apply orb_false_iff in Hq. destruct Hq as [-> _].
    reflexivity.
Qed.

Lemma parse_row (fields : list string) :
  fields <> [] ->
  map unescapeField (splitFields (join "," (map escapeField fields)))
  = fields.
Proof.
  intro H. rewrite (splitFields_join fields H), map_map.
  rewrite <- (map_id fields) at 2. apply map_ext.
  exact unescapeField_escapeField.
Qed.

Lemma countNewlines_app (a b : string) :
  countNewlines (a ++ b) = countNewlines a + countNewlines b.
Proof.
  induction a as [|c a IH]; simpl; [reflexivity|]. rewrite IH. lia.
Qed.

Lemma countNewlines_includes (s : string) :
  includes newline s = true -> 1 <= countNewlines s.
Proof.
  induction s as [|c s IH]; simpl; [discriminate|].
  destruct (Ascii.eqb c newline); simpl; [lia|]. exact IH.
Qed.

Lemma countNewlines_join (f : string) (fields : list string) :
  In f fields ->
  countNewlines f <= countNewlines (join "," fields).
Proof.
  unfold join. induction fields as [|g fields IH]; [intros []|].
  intros [->|Hin].
  - destruct fields; simpl; [lia|]. rewrite countNewlines_app. lia.
  - specialize (IH Hin). destruct fields as [|h fields]; [destruct Hin|].
    change (String.concat "," (g :: h :: fields))
      with (g ++ "," ++ String.concat "," (h :: fields)).
    rewrite !countNewlines_app. lia.
Qed.

Lemma countNewlines_toCsv (rows : list (list string)) :
  List.length rows <= countNewlines (toCsv rows).
Proof.
  induction rows as [|row rows IH]; [simpl; lia|].
  rewrite toCsv_cons, !countNewlines_app. simpl. lia.
Qed.

Lemma countNewlines_toCsv_field (rows : list (list string))
      (row : list string) (f : string) :
  In row rows -> In f row -> includes newline f = true ->
  List.length rows < countNewlines (toCsv rows).
Proof.
  intros Hrow Hf Hnl.
  induction rows as [|r rows IH]; [destruct Hrow|].
  rewrite toCsv_cons, !countNewlines_app. simpl.
  destruct Hrow as [->|Hrow].
  - pose proof (countNewlines_toCsv rows).
    assert (1 <= countNewlines (join "," (map escapeField row))).
    { etransitivity; [|apply (countNewlines_join (escapeField f))].
      - apply countNewlines_includes. now rewrite includes_escapeField.
      - now apply in_map. }
    lia.
  - specialize (IH Hrow). lia.
Qed.

End RoundTrip.

(** C6, amended.  When every row has at least one field and no field has
    a newline, reading the document back gives the rows that were
    written. *)
Theorem csv_round_trip_without_newlines :
  forall rows : list (list string),
    (forall row, In row rows ->
       row <> []
       /\ forall f, In f row -> JsString.includes JsString.newline f = false) ->
    Csv.parseCsv (Csv.toCsv rows) = rows.
Proof.
  intros rows H. unfold Csv.parseCsv.
  rewrite splitRows_toCsv.
  - rewrite map_map. rewrite <- (map_id rows) at 2.
    apply map_ext_in. intros row Hrow.
    apply parse_row. now apply H.
  - rewrite Forall_forall. intros row Hrow.
    rewrite Forall_forall. now apply H.
Qed.

Lemma csv_round_trip_without_newlines_witness :
  Csv.parseCsv (Csv.toCsv [["Day"; "Math, Sec A"]; [Examples.roomB; ""]])
  = [["Day"; "Math, Sec A"]; [Examples.roomB; ""]].
Proof.
  apply csv_round_trip_without_newlines.
  intros row Hrow. split.
  - destruct Hrow as [<-|[<-|[]]]; discriminate.
  - intros f Hf.
    destruct Hrow as [<-|[<-|[]]]; destruct Hf as [<-|[<-|[]]];
      reflexivity.
Defined.

(** C6 as stated fails: a field of two lines is read back as two rows,
    and a row without fields is read back as a row of one empty field. *)
Lemma csv_round_trip_fails :
  Csv.toCsv [[Examples.twoLines]]
  = "Math" ++ JsString.str1 JsString.newline
    ++ "Lab" ++ JsString.str1 JsString.newline
  /\ Csv.parseCsv (Csv.toCsv [[Examples.twoLines]]) = [["Math"]; ["Lab"]]
  /\ Csv.parseCsv (Csv.toCsv [[Examples.twoLines]])
     <> [[Examples.twoLines]]
  /\ Csv.parseCsv (Csv.toCsv [[]]) = [[""]]
  /\ Csv.parseCsv (Csv.toCsv [[]]) <> [[]].
Proof.
  repeat split; try reflexivity; vm_compute; discriminate.
Qed.

(** C10.  There is a field with a newline and without comma or quote
    that is written as it is, newline included.  A document with this
    field in a row has more newlines than rows, and no segment of the
    document between newlines is the field. *)
Theorem newline_field_is_written_unquoted :
  exists field : string,
    JsString.includes JsString.newline field = true
    /\ JsString.includes JsString.comma field = false
    /\ JsString.includes JsString.dquote field = false
    /\ Csv.escapeField field = field
    /\ Csv.toCsv [[field]] = field ++ JsString.str1 JsString.newline
    /\ Csv.parseCsv (Csv.toCsv [[field]]) <> [[field]]
    /\ forall (rows : list (list string)) (row : list string),
         In row rows -> In field row ->
         List.length rows < Csv.countNewlines (Csv.toCsv rows)
         /\ ~ In field (JsString.split JsString.newline (Csv.toCsv rows)).
Proof.
  exists Examples.twoLines.
  repeat split; try reflexivity.
  - vm_compute. discriminate.
  - now apply (countNewlines_toCsv_field rows row Examples.twoLines).
  - intro Hin. apply split_segments in Hin. discriminate Hin.
Qed.

Lemma newline_field_is_written_unquoted_witness :
  exists field : string,
    JsString.includes JsString.newline field = true
    /\ 2 < Csv.countNewlines
             (Csv.toCsv [["Day"; "9:00 - 10:00"]; ["Monday"; field]]).
Proof.
  destruct newline_field_is_written_unquoted
    as (field & Hnl & _ & _ & _ & _ & _ & Hrows).
  exists field. split; [exact Hnl|].
  apply (Hrows [["Day"; "9:00 - 10:00"]; ["Monday"; field]]
               ["Monday"; field]).
  - right. now left.
  - right. now left.
Defined.

(** * Further properties *)

(** ** The selection of subjects *)

Section Selection.
Import Page.

Lemma setDelete_In (x y : string) (s : JsSet.t) :
  In y (setDelete x s) <-> In y s /\ y <> x.
Proof.
  unfold setDelete. rewrite filter_In, negb_true_iff, String.eqb_neq.
  split; intros [H1 H2]; split; auto.
Qed.

Lemma setDelete_NoDup (x : string) (s : JsSet.t) :
  NoDup s -> NoDup (setDelete x s).
Proof. apply NoDup_filter. Qed.

Lemma replaceAt_split {A} (l : list A) (i : nat) (x y : A) :
  nth_error l i = Some x ->
  exists l1 l2,
    l = (l1 ++ x :: l2)%list /\ replaceAt i y l = (l1 ++ y :: l2)%list.
Proof.
  revert i. induction l as [|z l IH]; intros [|i] H; simpl in H;
    try discriminate.
  - injection H as ->. now exists [], l.
  - destruct (IH i H) as (l1 & l2 & -> & E).
    exists (z :: l1), l2. simpl. now rewrite E.
Qed.

Lemma renderSubjects_items (subjects : list string) (st : state) :
  fold_left
    (fun st subject =>
       setItems (items st ++ [Item subject false ""])%list st)
    subjects st
  = setItems (items st ++ map (fun s => Item s false "") subjects)%list st.
Proof.
  revert st. induction subjects as [|s subjects IH]; intro st; simpl.
  - rewrite app_nil_r. now destruct st.
  - rewrite IH. destruct st. unfold setItems. simpl.
    now rewrite <- app_assoc.
Qed.

(** The items that a test keeps have different subjects when all the
    items have. *)
Lemma kept_items_differ (keep : Page.item -> bool)
      (its : list Page.item) :
  NoDup (map Page.subject its) ->
  NoDup (map Page.subject (filter keep its)).
Proof.
  induction its as [|it its IH]; simpl; intro H; [constructor|].
  inversion H as [|? ? Hit Hits]; subst.
  destruct (keep it); simpl; [|now apply IH].
  constructor; [|now apply IH].
  intro Hin. apply Hit. apply in_map_iff in Hin.
  destruct Hin as (y & E & Hy). apply filter_In in Hy.
  apply in_map_iff. exists y. tauto.
Qed.

Lemma in_map_filter {A B} (f : A -> B) (p : A -> bool) (l : list A)
      (y : B) :
  In y (map f (filter p l)) -> In y (map f l).
Proof.
  intro H. apply in_map_iff in H. destruct H as (x & E & Hx).
  apply filter_In in Hx. apply in_map_iff. exists x. tauto.
Qed.

Lemma clickItem_keeps (i : nat) (st : state) :
  NoDup (map subject (items st)) -> selectionMatches st ->
  selectionMatches (clickItem i st)
  /\ map subject (items (clickItem i st)) = map subject (items st).
Proof.
  intros Hnd (Hsel & Hmem & Hcount & Hdis). unfold clickItem.
  destruct (nth_error (items st) i) as [it|] eqn:E.
  2:{ split; [|reflexivity]. repeat split; assumption || apply Hmem. }
  destruct (replaceAt_split (items st) i it
              (Item (subject it) (negb (selected it)) (display it)) E)
    as (l1 & l2 & Hitems & Hrep).
  rewrite Hrep. destruct st as [its sel cnt dis gh sl sp spt sc tc rs al].
  simpl in *. subst its. unfold selectedItems in Hmem. simpl in Hmem.
  rewrite map_app in Hnd. simpl in Hnd.
  pose proof (NoDup_remove_2 _ _ _ Hnd) as Hfresh.
  rewrite in_app_iff in Hfresh.
  assert (Hmap : map subject
                   (l1 ++ Item (subject it) (negb (selected it)) (display it)
                       :: l2)
                 = map subject (l1 ++ it :: l2)).
  { now rewrite !map_app. }
  destruct (selected it) eqn:Sit; simpl.
  - split; [|exact Hmap].
    unfold selectionMatches, updateSelectedCount, selectedItems. simpl.
    split; [now apply setDelete_NoDup|].
    split; [|split; reflexivity].
    intro s. rewrite setDelete_In, Hmem.
    rewrite !filter_app, !map_app, !in_app_iff. simpl. rewrite Sit. simpl.
    split.
    + intros [[H|[H|H]] Hne]; [now left|congruence|now right].
    + intros [H|H]; (split; [tauto|]); intros ->; apply Hfresh;
        [left|right]; eapply in_map_filter; exact H.
  - split; [|exact Hmap].
    unfold selectionMatches, updateSelectedCount, selectedItems. simpl.
    split; [now apply add_NoDup|].
    split; [|split; reflexivity].
    intro s. rewrite add_In, Hmem.
    rewrite !filter_app, !map_app, !in_app_iff. simpl. rewrite Sit. simpl.
    intuition congruence.
Qed.

Lemma renderSubjects_matches (subjects : list string) (st : state) :
  selectionMatches (pageOf (renderSubjects (Some subjects) st))
  /\ items (pageOf (renderSubjects (Some subjects) st))
     = map (fun s => Item s false "") subjects.
Proof.
  unfold renderSubjects. rewrite renderSubjects_items. simpl.
  split; [|reflexivity].
  unfold selectionMatches, selectedItems. simpl.
  split; [constructor|]. split; [|split; reflexivity].
  intro s. split; [intros []|].
  intro H. apply in_map_iff in H. destruct H as (it & _ & Hit).
  apply filter_In in Hit. destruct Hit as [Hit Hs].
  apply in_map_iff in Hit. destruct Hit as (x & <- & _). discriminate.
Qed.

Lemma renderSubjects_selection (subjects : list string) (st : state) :
  selectedSubjects (pageOf (renderSubjects (Some subjects) st)) = [].
Proof.
  unfold renderSubjects. rewrite renderSubjects_items. reflexivity.
Qed.

Lemma clickItems_keep (clicks : list nat) (st : state) :
  NoDup (map subject (items st)) -> selectionMatches st ->
  selectionMatches (clickItems clicks st)
  /\ map subject (items (clickItems clicks st)) = map subject (items st).
Proof.
  revert st. unfold clickItems.
  induction clicks as [|i clicks IH]; intros st Hnd Hm; simpl.
  - now split.
  - destruct (clickItem_keeps i st Hnd Hm) as [Hm' Hs'].
    destruct (IH (clickItem i st)) as [Hm'' Hs''];
      [now rewrite Hs'|exact Hm'|].
    split; [exact Hm''|]. now rewrite Hs''.
Qed.

End Selection.

(** X1.  After [renderSubjects] on subjects without repeats, and after
    any clicks on the items, the items carry the subjects in their order,
    the set holds each subject of a selected item once and nothing else,
    the count text tells the number of selected items, and the button is
    disabled exactly when no item is selected. *)
Theorem selection_agrees_with_items :
  forall (subjects : list string) (clicks : list nat) (st0 : Page.state),
    NoDup subjects ->
    let st :=
      Page.clickItems clicks
        (Page.pageOf (Page.renderSubjects (Some subjects) st0)) in
    map Page.subject (Page.items st) = subjects
    /\ Permutation (Page.selectedSubjects st)
                   (map Page.subject (Page.selectedItems st))
    /\ Page.selectedCount st
       = Page.countText (List.length (Page.selectedItems st))
    /\ Page.generateDisabled st
       = Nat.eqb (List.length (Page.selectedItems st)) 0.
Proof.
  intros subjects clicks st0 Hnd. cbv zeta.
  destruct (renderSubjects_matches subjects st0) as [Hm Hitems].
  assert (Hsub : map Page.subject
                   (Page.items
                      (Page.pageOf (Page.renderSubjects (Some subjects) st0)))
                 = subjects).
  { rewrite Hitems, map_map. simpl. apply map_id. }
  destruct (clickItems_keep clicks _ ltac:(now rewrite Hsub) Hm)
    as [(Hsel & Hmem & Hcount & Hdis) Hs].
  rewrite Hsub in Hs.
  set (st := Page.clickItems clicks _) in *.
  assert (Hperm : Permutation (Page.selectedSubjects st)
                              (map Page.subject (Page.selectedItems st))).
  { apply NoDup_Permutation; [exact Hsel| |exact Hmem].
    apply kept_items_differ. now rewrite Hs. }
  assert (Hlen : List.length (Page.selectedSubjects st)
                 = List.length (Page.selectedItems st)).
  { rewrite (Permutation_length Hperm). apply length_map. }
  rewrite <- Hlen. repeat split; assumption.
Qed.

Lemma selection_agrees_with_items_witness :
  let st :=
    Page.clickItems [0; 1; 0]
      (Page.pageOf
         (Page.renderSubjects (Some ["Math"; "Physics"]) Page.blank)) in
  map Page.subject (Page.items st) = ["Math"; "Physics"]
  /\ Permutation (Page.selectedSubjects st)
                 (map Page.subject (Page.selectedItems st))
  /\ Page.selectedCount st
     = Page.countText (List.length (Page.selectedItems st))
  /\ Page.generateDisabled st
     = Nat.eqb (List.length (Page.selectedItems st)) 0.
Proof.
  apply selection_agrees_with_items.
  repeat constructor; simpl; intuition discriminate.
Defined.

(** X2.  When a subject comes twice in the list the set does not follow
    the items: after a click on the first item, one on the second and one
    more on the first, the second item shows as selected, while the set
    is empty, the count is 0 and the button is disabled. *)
Theorem repeated_subject_leaves_item_selected :
  forall (s : string) (st0 : Page.state),
    let st :=
      Page.clickItems [0; 1; 0]
        (Page.pageOf (Page.renderSubjects (Some [s; s]) st0)) in
    Page.items st = [Page.Item s false ""; Page.Item s true ""]
    /\ Page.selectedSubjects st = []
    /\ Page.selectedCount st = Page.countText 0
    /\ Page.generateDisabled st = true.
Proof.
  intros s st0. cbv zeta.
  unfold Page.clickItems, Page.renderSubjects, Page.clickItem,
    Page.updateSelectedCount, JsSet.add, JsSet.has, Page.setDelete.
  simpl. rewrite !String.eqb_refl. simpl. rewrite !String.eqb_refl. simpl.
  repeat split.
Qed.

(** ** The search box *)

Section Search.
Import Page.

Lemma startsWith_prefix (pat s : string) :
  startsWith pat s = true <-> exists after, s = pat ++ after.
Proof.
  revert s. induction pat as [|p pat IH]; intro s; simpl.
  - split; [intros _; now exists s|reflexivity].
  - destruct s as [|c s].
    + split; [discriminate|intros [after H]; discriminate].
    + rewrite andb_true_iff, Ascii.eqb_eq, IH. split.
      * intros [-> [after ->]]. now exists after.
      * intros [after H]. injection H as -> ->. split; [reflexivity|].
        now exists after.
Qed.

Lemma includesText_occurs (pat s : string) :
  includesText pat s = true <-> occursIn pat s.
Proof.
  unfold occursIn. induction s as [|c s IH].
  - simpl. rewrite orb_false_r, startsWith_prefix. split.
    + intros [after H]. now exists "", after.
    + intros (before & after & H). destruct before; [|discriminate].
      now exists after.
  - cbn [includesText]. rewrite orb_true_iff, startsWith_prefix, IH. split.
    + intros [[after H]|(before & after & H)].
      * now exists "", after.
      * exists (String c before), after. simpl. now rewrite H.
    + intros (before & after & H). destruct before as [|b before].
      * left. now exists after.
      * right. simpl in H. injection H as _ H. now exists before, after.
Qed.

Lemma toLowerChar_idempotent (c : ascii) :
  toLowerChar (toLowerChar c) = toLowerChar c.
Proof. destruct c as [[] [] [] [] [] [] [] []]; reflexivity. Qed.

Lemma toLowerCase_idempotent (s : string) :
  toLowerCase (toLowerCase s) = toLowerCase s.
Proof.
  induction s as [|c s IH]; simpl; [reflexivity|].
  now rewrite toLowerChar_idempotent, IH.
Qed.

Lemma toLowerCase_append (a b : string) :
  toLowerCase (a ++ b) = toLowerCase a ++ toLowerCase b.
Proof. induction a as [|c a IH]; simpl; [reflexivity|now rewrite IH]. Qed.

Lemma occursIn_append (p q s : string) :
  occursIn (p ++ q) s -> occursIn p s /\ occursIn q s.
Proof.
  intros (before & after & ->). split.
  - exists before, (q ++ after). now rewrite append_assoc.
  - exists (before ++ p), after. now rewrite !append_assoc.
Qed.

End Search.

(** X3.  A search changes nothing but the display of the items.  An item
    is displayed when the value of the box, in lower case, occurs in its
    subject, in lower case, and hidden otherwise; so the case of the
    letters of the value plays no part, and the empty value displays every
    item. *)
Theorem search_displays_matching_items :
  forall (value : string) (st : Page.state),
    Page.selectedSubjects (Page.search value st) = Page.selectedSubjects st
    /\ Page.selectedCount (Page.search value st) = Page.selectedCount st
    /\ Page.generateDisabled (Page.search value st)
       = Page.generateDisabled st
    /\ Forall2
         (fun before after =>
            Page.subject after = Page.subject before
            /\ Page.selected after = Page.selected before
            /\ (Page.occursIn (Page.toLowerCase value)
                              (Page.toLowerCase (Page.subject before)) ->
                Page.display after = "block")
            /\ (~ Page.occursIn (Page.toLowerCase value)
                                (Page.toLowerCase (Page.subject before)) ->
                Page.display after = "none"))
         (Page.items st) (Page.items (Page.search value st))
    /\ Page.search (Page.toLowerCase value) st = Page.search value st
    /\ Forall (fun it => Page.display it = "block")
              (Page.items (Page.search "" st)).
Proof.
  intros value st. repeat split.
  - unfold Page.search. simpl.
    induction (Page.items st) as [|it its IH]; simpl; constructor;
      [|exact IH].
    repeat split.
    + intro H. apply includesText_occurs in H. now rewrite H.
    + intro H. destruct (Page.includesText _ _) eqn:E; [|reflexivity].
      apply includesText_occurs in E. contradiction.
  - unfold Page.search. now rewrite toLowerCase_idempotent.
  - unfold Page.search. simpl. rewrite Forall_forall. intros it Hit.
    apply in_map_iff in Hit. destruct Hit as (x & <- & _). simpl.
    now destruct (Page.toLowerCase (Page.subject x)).
Qed.

(** X4.  On ASCII text a longer value never displays more: when the
    value, made of two parts, and the subjects are ASCII text, an item
    displayed for the value is displayed for each of the parts.  (Outside
    ASCII the lower case of a letter may depend on the letters around it,
    and the lower case of the value need not be made of the lower cases of
    its parts.) *)
Theorem search_longer_value_displays_fewer :
  forall (first second : string) (st : Page.state),
    Page.isAscii first = true -> Page.isAscii second = true ->
    Forall (fun it => Page.isAscii (Page.subject it) = true)
           (Page.items st) ->
    Forall2
      (fun whole part =>
         Page.display whole = "block" -> Page.display part = "block")
      (Page.items (Page.search (first ++ second) st))
      (Page.items (Page.search first st))
    /\ Forall2
         (fun whole part =>
            Page.display whole = "block" -> Page.display part = "block")
         (Page.items (Page.search (first ++ second) st))
         (Page.items (Page.search second st)).
Proof.
  intros first second st _ _ _. unfold Page.search. simpl.
  split; induction (Page.items st) as [|it its IH]; simpl; constructor;
    try exact IH; simpl; intro H;
    destruct (Page.includesText (Page.toLowerCase (first ++ second)) _)
      eqn:E; try discriminate;
    apply includesText_occurs in E; rewrite toLowerCase_append in E;
    apply occursIn_append in E; destruct E as [E1 E2].
  - apply includesText_occurs in E1. now rewrite E1.
  - apply includesText_occurs in E2. now rewrite E2.
Qed.

Lemma search_longer_value_displays_fewer_witness :
  Forall2
    (fun whole part =>
       Page.display whole = "block" -> Page.display part = "block")
    (Page.items
       (Page.search ("PH" ++ "ys")
          (Page.pageOf
             (Page.renderSubjects (Some ["Math"; "Physics"]) Page.blank))))
    (Page.items
       (Page.search "PH"
          (Page.pageOf
             (Page.renderSubjects (Some ["Math"; "Physics"]) Page.blank))))
  /\ Forall2
       (fun whole part =>
          Page.display whole = "block" -> Page.display part = "block")
       (Page.items
          (Page.search ("PH" ++ "ys")
             (Page.pageOf
                (Page.renderSubjects (Some ["Math"; "Physics"])
                                     Page.blank))))
       (Page.items
          (Page.search "ys"
             (Page.pageOf
                (Page.renderSubjects (Some ["Math"; "Physics"])
                                     Page.blank)))).
Proof.
  apply (search_longer_value_displays_fewer "PH" "ys"
           (Page.pageOf
              (Page.renderSubjects (Some ["Math"; "Physics"]) Page.blank))).
  - reflexivity.
  - reflexivity.
  - repeat constructor.
Defined.

(** ** The generation request *)

(** X5.  When the generation request is over the button is enabled and
    has its text back, and the items and the set are as they were.  Either
    the response is a success with data, whose table is written and shown
    and no alert is raised; or the table and its section are left as they
    were and one alert is raised, with a text that is not empty: the
    message of the server when it reports a failure with a message. *)
Theorem generate_shows_table_or_alerts :
  forall (r : Page.response Page.generateResult) (st : Page.state),
    let st' := Page.generateFinish r st in
    Page.generateDisabled st' = false
    /\ Page.generateHtml st' = Page.generateHtmlAtRest
    /\ Page.items st' = Page.items st
    /\ Page.selectedSubjects st' = Page.selectedSubjects st
    /\ ((exists result d,
            r = Page.Body result /\ Page.success result = true
            /\ Page.data result = Some d
            /\ Page.timetableContainer st' = Timetable.renderTimetable d
            /\ Page.resultsSection st' = "block"
            /\ Page.alerts st' = Page.alerts st)
        \/ (Page.timetableContainer st' = Page.timetableContainer st
            /\ Page.resultsSection st' = Page.resultsSection st
            /\ exists text,
                 text <> ""
                 /\ Page.alerts st' = (Page.alerts st ++ [text])%list
                 /\ forall result m,
                      r = Page.Body result ->
                      Page.success result = false ->
                      Page.message result = Some m -> m <> "" ->
                      text = m)).
Proof.
  intros r st. cbv zeta. unfold Page.generateFinish.
  split; [destruct r as [| | |[[] [d|] m]]; reflexivity|].
  split; [destruct r as [| | |[[] [d|] m]]; reflexivity|].
  split; [destruct r as [| | |[[] [d|] m]]; reflexivity|].
  split; [destruct r as [| | |[[] [d|] m]]; reflexivity|].
  assert (Hfail :
            forall text : string,
              text <> "" ->
              (forall result m,
                  r = Page.Body result -> Page.success result = false ->
                  Page.message result = Some m -> m <> "" -> text = m) ->
              exists text',
                text' <> ""
                /\ (Page.alerts st ++ [text])%list
                   = (Page.alerts st ++ [text'])%list
                /\ forall result m,
                     r = Page.Body result -> Page.success result = false ->
                     Page.message result = Some m -> m <> "" -> text' = m).
  { intros text Hne Hm. now exists text. }
  destruct r as [| | |[[] [d|] [[|c m]|]]]; simpl;
    try (left; eexists; eexists; repeat split; reflexivity);
    right; (split; [reflexivity|]); (split; [reflexivity|]);
    apply Hfail; try discriminate;
    intros result m' E; inversion E; subst; simpl;
    try discriminate; intros _ E' Hne; inversion E'; subst;
    congruence.
Qed.

Section Pending.
Import Page.

Lemma nth_error_replaceAt {A} (l : list A) (i : nat) (x y : A) :
  nth_error l i = Some x -> nth_error (replaceAt i y l) i = Some y.
Proof.
  revert i. induction l as [|z l IH]; intros [|i] H; simpl in *;
    try discriminate; [reflexivity|now apply IH].
Qed.

Lemma replaceAt_twice {A} (l : list A) (i : nat) (x y : A) :
  replaceAt i x (replaceAt i y l) = replaceAt i x l.
Proof.
  revert i. induction l as [|z l IH]; intros [|i]; simpl;
    try reflexivity. now rewrite IH.
Qed.

Lemma generateFinish_button (r : response generateResult) (st : state) :
  generateDisabled (generateFinish r st) = false
  /\ selectedSubjects (generateFinish r st) = selectedSubjects st.
Proof.
  unfold generateFinish.
  destruct r as [| | |[[] [d|] m]]; split; reflexivity.
Qed.

Lemma generateStart_subjects (branchValue batchValue : string)
      (st : state) :
  selected_subjects (snd (generateStart branchValue batchValue st))
  = selectedSubjects st.
Proof. reflexivity. Qed.

End Pending.

(** X6.  A subject is selected, the request is sent, and the subject is
    deselected before the response comes.  The request names the subject.
    The deselection leaves the button disabled; the end of the request
    enables it, whatever the response, with no subject selected, and a
    request sent from there names no subject. *)
Theorem deselecting_while_pending_leaves_button_enabled :
  forall (subjects : list string) (i : nat) (s : string)
         (branch batch : string) (r : Page.response Page.generateResult)
         (st0 : Page.state),
    nth_error subjects i = Some s ->
    let ready :=
      Page.clickItem i
        (Page.pageOf (Page.renderSubjects (Some subjects) st0)) in
    let pending :=
      Page.clickItem i (fst (Page.generateStart branch batch ready)) in
    let after := Page.generateFinish r pending in
    Page.generateDisabled ready = false
    /\ Page.selected_subjects (snd (Page.generateStart branch batch ready))
       = [s]
    /\ Page.generateDisabled pending = true
    /\ Page.selectedSubjects after = []
    /\ Page.generateDisabled after = false
    /\ Page.selected_subjects (snd (Page.generateStart branch batch after))
       = [].
Proof.
  intros subjects i s branch batch r st0 Hi. cbv zeta.
  destruct (renderSubjects_matches subjects st0) as [_ Hitems].
  assert (Hnth : nth_error
                   (Page.items
                      (Page.pageOf (Page.renderSubjects (Some subjects) st0)))
                   i = Some (Page.Item s false "")).
  { rewrite Hitems.
    exact (map_nth_error (fun x => Page.Item x false "") _ _ Hi). }
  pose proof (renderSubjects_selection subjects st0) as Hempty.
  set (page := Page.pageOf (Page.renderSubjects (Some subjects) st0)) in *.
  clearbody page.
  set (ready := Page.clickItem i page).
  assert (Hready : Page.selectedSubjects ready = [s]
                   /\ Page.generateDisabled ready = false
                   /\ nth_error (Page.items ready) i
                      = Some (Page.Item s true "")).
  { unfold ready, Page.clickItem. rewrite Hnth. simpl. rewrite Hempty.
    split; [reflexivity|]. split; [reflexivity|].
    eapply nth_error_replaceAt. exact Hnth. }
  destruct Hready as (Rsel & Rdis & Rnth).
  set (pending := Page.clickItem i
                    (fst (Page.generateStart branch batch ready))).
  assert (Hpending : Page.selectedSubjects pending = []
                     /\ Page.generateDisabled pending = true).
  { unfold pending, Page.clickItem, Page.generateStart. simpl.
    rewrite Rnth. simpl. rewrite Rsel. unfold Page.setDelete. simpl.
    rewrite String.eqb_refl. simpl. split; reflexivity. }
  destruct Hpending as (Psel & Pdis).
  destruct (generateFinish_button r pending) as (Adis & Asel).
  rewrite !generateStart_subjects, Asel, Psel, Rsel.
  repeat split; assumption.
Qed.

Lemma deselecting_while_pending_leaves_button_enabled_witness :
  let ready :=
    Page.clickItem 1
      (Page.pageOf
         (Page.renderSubjects (Some ["Math"; "Physics"]) Page.blank)) in
  let pending :=
    Page.clickItem 1 (fst (Page.generateStart "CSE" "B1" ready)) in
  let after := Page.generateFinish Page.NotOk pending in
  Page.generateDisabled ready = false
  /\ Page.selected_subjects (snd (Page.generateStart "CSE" "B1" ready))
     = ["Physics"]
  /\ Page.generateDisabled pending = true
  /\ Page.selectedSubjects after = []
  /\ Page.generateDisabled after = false
  /\ Page.selected_subjects (snd (Page.generateStart "CSE" "B1" after))
     = [].
Proof.
  apply (deselecting_while_pending_leaves_button_enabled
           ["Math"; "Physics"] 1 "Physics").
  reflexivity.
Defined.

(** X7.  While the request is pending, a click that selects an item
    enables the button that the handler had disabled. *)
Theorem selecting_while_pending_enables_button :
  forall (branch batch : string) (i : nat) (it : Page.item)
         (st : Page.state),
    nth_error (Page.items st) i = Some it ->
    Page.selected it = false ->
    Page.generateDisabled (fst (Page.generateStart branch batch st)) = true
    /\ Page.generateDisabled
         (Page.clickItem i (fst (Page.generateStart branch batch st)))
       = false.
Proof.
  intros branch batch i it st Hi Hsel. split; [reflexivity|].
  unfold Page.clickItem, Page.generateStart. simpl. rewrite Hi, Hsel.
  simpl. unfold JsSet.add.
  destruct (JsSet.has (Page.subject it) (Page.selectedSubjects st)) eqn:E.
  - apply has_In in E. destruct (Page.selectedSubjects st); [destruct E|].
    reflexivity.
  - rewrite length_app. simpl. now rewrite Nat.add_1_r.
Qed.

Lemma selecting_while_pending_enables_button_witness :
  Page.generateDisabled
    (fst (Page.generateStart "CSE" "B1"
            (Page.pageOf
               (Page.renderSubjects (Some ["Math"; "Physics"]) Page.blank))))
  = true
  /\ Page.generateDisabled
       (Page.clickItem 0
          (fst (Page.generateStart "CSE" "B1"
                  (Page.pageOf
                     (Page.renderSubjects (Some ["Math"; "Physics"])
                                          Page.blank)))))
     = false.
Proof.
  apply (selecting_while_pending_enables_button "CSE" "B1" 0
           (Page.Item "Math" false ""));
    reflexivity.
Defined.

(** ** The subjects request *)

Section SubjectsRequest.
Import Page.

Lemma clickItem_panel (i : nat) (st : state) :
  subjectsLoading (clickItem i st) = subjectsLoading st
  /\ subjectsPlaceholder (clickItem i st) = subjectsPlaceholder st
  /\ subjectsContainer (clickItem i st) = subjectsContainer st.
Proof.
  unfold clickItem. destruct (nth_error (items st) i) as [it|];
    [|repeat split].
  destruct (negb (selected it)); repeat split.
Qed.

Lemma clickItems_panel (clicks : list nat) (st : state) :
  subjectsLoading (clickItems clicks st) = subjectsLoading st
  /\ subjectsPlaceholder (clickItems clicks st) = subjectsPlaceholder st
  /\ subjectsContainer (clickItems clicks st) = subjectsContainer st.
Proof.
  revert st. unfold clickItems.
  induction clicks as [|i clicks IH]; intro st; simpl; [repeat split|].
  destruct (IH (clickItem i st)) as (-> & -> & ->).
  apply clickItem_panel.
Qed.

End SubjectsRequest.

(** X8.  When the subjects request is over, whatever the response and
    whatever items were clicked or searched in the meantime, the loading
    indicator is hidden and exactly one of the list and the placeholder
    shows: the list when the body has an array of subjects, and otherwise
    the placeholder, with the text of the failure. *)
Theorem subjects_request_shows_list_or_placeholder :
  forall (r : Page.response (option (list string))) (clicks : list nat)
         (value : string) (st : Page.state),
    let st' :=
      Page.fetchSubjectsFinish r
        (Page.search value
           (Page.clickItems clicks (Page.fetchSubjectsStart st))) in
    Page.subjectsLoading st' = "none"
    /\ ((exists subjects, r = Page.Body (Some subjects))
        /\ Page.subjectsContainer st' = "block"
        /\ Page.subjectsPlaceholder st' = "none"
        \/ (forall subjects, r <> Page.Body (Some subjects))
           /\ Page.subjectsContainer st' = "none"
           /\ Page.subjectsPlaceholder st' = "block"
           /\ Page.subjectsPlaceholderText st' = Page.subjectsFailedText).
Proof.
  intros r clicks value st. cbv zeta.
  destruct (clickItems_panel clicks (Page.fetchSubjectsStart st))
    as (_ & Hp & Hc).
  set (mid := Page.search value
                (Page.clickItems clicks (Page.fetchSubjectsStart st))).
  assert (Hmid : Page.subjectsPlaceholder mid = "none"
                 /\ Page.subjectsContainer mid = "none").
  { unfold mid, Page.search. simpl. now rewrite Hp, Hc. }
  clearbody mid. destruct Hmid as [Mp Mc].
  unfold Page.fetchSubjectsFinish.
  destruct r as [| | |[subjects|]].
  - split; [reflexivity|right]. simpl. rewrite Mc.
    repeat split; discriminate.
  - split; [reflexivity|right]. simpl. rewrite Mc.
    repeat split; discriminate.
  - split; [reflexivity|right]. simpl. rewrite Mc.
    repeat split; discriminate.
  - unfold Page.renderSubjects. rewrite renderSubjects_items.
    split; [reflexivity|left]. simpl. rewrite Mp.
    split; [now exists subjects|]. now split.
  - split; [reflexivity|right]. simpl. rewrite Mc.
    repeat split; discriminate.
Qed.

(** X9.  What the subjects request does to the selection.  With an array
    of subjects in the body the list shows these subjects, none selected,
    the count is 0 and the button is disabled.  With a body without such
    an array the list and the set are emptied but the count text and the
    button are left as they were.  With no body at all nothing of the
    selection changes. *)
Theorem subjects_request_resets_selection :
  forall (r : Page.response (option (list string))) (st : Page.state),
    let st' := Page.fetchSubjectsFinish r st in
    match r with
    | Page.Body (Some subjects) =>
        Page.items st' = map (fun s => Page.Item s false "") subjects
        /\ Page.selectedSubjects st' = []
        /\ Page.selectedCount st' = Page.countText 0
        /\ Page.generateDisabled st' = true
    | Page.Body None =>
        Page.items st' = []
        /\ Page.selectedSubjects st' = []
        /\ Page.selectedCount st' = Page.selectedCount st
        /\ Page.generateDisabled st' = Page.generateDisabled st
    | _ =>
        Page.items st' = Page.items st
        /\ Page.selectedSubjects st' = Page.selectedSubjects st
        /\ Page.selectedCount st' = Page.selectedCount st
        /\ Page.generateDisabled st' = Page.generateDisabled st
    end.
Proof.
  intros r st. cbv zeta. unfold Page.fetchSubjectsFinish.
  destruct r as [| | |[subjects|]]; try (repeat split; reflexivity).
  unfold Page.renderSubjects. rewrite renderSubjects_items.
  repeat split; reflexivity.
Qed.

(** ** The order of rows and columns *)

Section Order.
Context {A : Type}.
Variable compareFn : A -> A -> comparison.

Lemma precedes_cons (a b y : A) (l : list A) :
  JsArray.precedes a b l -> JsArray.precedes a b (y :: l).
Proof.
  intros (l1 & l2 & l3 & ->). now exists (y :: l1), l2, l3.
Qed.

Lemma precedes_head (a b : A) (l : list A) :
  In b l -> JsArray.precedes a b (a :: l).
Proof.
  intro H. apply in_split in H. destruct H as (l2 & l3 & ->).
  now exists [], l2, l3.
Qed.

Lemma precedes_cons_inv (a b y : A) (l : list A) :
  JsArray.precedes a b (y :: l) ->
  (a = y /\ In b l) \/ JsArray.precedes a b l.
Proof.
  intros (l1 & l2 & l3 & H). destruct l1 as [|z l1]; simpl in H.
  - injection H as -> ->. left. split; [reflexivity|].
    apply in_or_app. right. now left.
  - injection H as -> ->. right. now exists l1, l2, l3.
Qed.

Lemma precedes_In (a b : A) (l : list A) :
  JsArray.precedes a b l -> In a l /\ In b l.
Proof.
  intros (l1 & l2 & l3 & ->). split.
  - apply in_or_app. right. now left.
  - apply in_or_app. right. right. apply in_or_app. right. now left.
Qed.

Lemma precedes_insert (a b x : A) (l : list A) :
  JsArray.precedes a b l ->
  JsArray.precedes a b (JsArray.insert compareFn x l).
Proof.
  induction l as [|y l IH]; simpl; intro H.
  - destruct H as (l1 & l2 & l3 & H). destruct l1; discriminate.
  - destruct (compareFn x y); try (now apply precedes_cons).
    apply precedes_cons_inv in H. destruct H as [[-> Hb]|H].
    + apply precedes_head.
      apply (Permutation_in b (insert_permutation compareFn x l)).
      now right.
    + now apply precedes_cons, IH.
Qed.

(** An element that the comparator does not put after a later one stays
    before it. *)
Lemma sort_keeps_order (a b : A) (l : list A) :
  compareFn a b <> Gt ->
  JsArray.precedes a b l ->
  JsArray.precedes a b (JsArray.sort compareFn l).
Proof.
  intro Hab. induction l as [|x l IH]; intro H.
  - destruct H as (l1 & l2 & l3 & H). destruct l1; discriminate.
  - change (JsArray.sort compareFn (x :: l))
      with (JsArray.insert compareFn x (JsArray.sort compareFn l)).
    apply precedes_cons_inv in H. destruct H as [[-> Hb]|H].
    + apply (sort_In compareFn) in Hb. clear IH.
      induction (JsArray.sort compareFn l) as [|y s IHs]; [destruct Hb|].
      simpl. destruct (compareFn x y) eqn:E.
      * now apply precedes_head.
      * now apply precedes_head.
      * destruct Hb as [->|Hb]; [contradiction|].
        now apply precedes_cons, IHs.
    + now apply precedes_insert, IH.
Qed.

(** In an array sorted by a relation, of two elements that the relation
    orders one way only, the smaller comes first. *)
Lemma sorted_precedes (R : A -> A -> Prop) (a b : A) (l : list A) :
  StronglySorted R l -> In a l -> In b l -> a <> b -> ~ R b a ->
  JsArray.precedes a b l.
Proof.
  intros Hs Ha Hb Hne Hnot. induction Hs as [|x l Hl IH Hx].
  - destruct Ha.
  - rewrite Forall_forall in Hx.
    destruct Ha as [Ha|Ha], Hb as [Hb|Hb].
    + congruence.
    + subst x. now apply precedes_head.
    + subst x. exfalso. apply Hnot. now apply Hx.
    + now apply precedes_cons, IH.
Qed.

End Order.

Section DayOrderFacts.
Import Timetable.

Lemma compareDays_notAfter (a b : string) :
  JsArray.notAfter compareDays a b
  <-> (JsArray.indexOf dayOrder a <= JsArray.indexOf dayOrder b)%Z.
Proof.
  unfold JsArray.notAfter, compareDays. rewrite Z.compare_gt_iff. lia.
Qed.

Lemma sortedDays_sorted (data : ScheduleMapping) :
  StronglySorted
    (fun a b =>
       (JsArray.indexOf dayOrder a <= JsArray.indexOf dayOrder b)%Z)
    (sortedDays data).
Proof.
  apply (StronglySorted_weaken (JsArray.notAfter compareDays)).
  - intros a b _ _. apply compareDays_notAfter.
  - unfold sortedDays.
    apply (sort_sorted compareDays (fun _ => True)).
    + intros a b. unfold compareDays. rewrite !Z.compare_gt_iff. lia.
    + intros a b c _ _ _. rewrite !compareDays_notAfter. lia.
    + rewrite Forall_forall. trivial.
Qed.

End DayOrderFacts.

(** X10.  The rows are in the order of [dayOrder]: the position in
    [dayOrder] never decreases along the rows (with -1 for a name that is
    not listed), and of two days of the data the one that [dayOrder] lists
    first is the earlier row. *)
Theorem rows_follow_the_week :
  forall data : Timetable.ScheduleMapping,
    StronglySorted
      (fun a b =>
         (JsArray.indexOf Timetable.dayOrder a
          <= JsArray.indexOf Timetable.dayOrder b)%Z)
      (Timetable.sortedDays data)
    /\ forall a b : string,
         In a (Timetable.days data) -> In b (Timetable.days data) ->
         (JsArray.indexOf Timetable.dayOrder a
          < JsArray.indexOf Timetable.dayOrder b)%Z ->
         JsArray.precedes a b (Timetable.sortedDays data).
Proof.
  intro data. split; [apply sortedDays_sorted|].
  intros a b Ha Hb Hlt.
  apply (sorted_precedes _ a b _ (sortedDays_sorted data)).
  - now apply sortedDays_In.
  - now apply sortedDays_In.
  - intros ->. lia.
  - lia.
Qed.

Lemma rows_follow_the_week_witness :
  JsArray.precedes "Monday" "Tuesday"
    (Timetable.sortedDays Examples.tuesdayMonday).
Proof.
  apply (rows_follow_the_week Examples.tuesdayMonday).
  - right. now left.
  - now left.
  - reflexivity.
Defined.

(** X11.  Two columns whose keys tie keep the order in which the labels
    were met in the data, when the key of every label is a number.  (With
    a [NaN] key the comparator is no order, and the array that the sort
    returns is left to the engine.) *)
Theorem tied_columns_keep_their_order :
  forall (data : Timetable.ScheduleMapping) (a b : string),
    (forall t, In t (Timetable.timeSlots data) ->
               JsNumber.isNaN (Timetable.parseTime t) = false) ->
    JsArray.precedes a b (JsSet.toArray (Timetable.timeSlots data)) ->
    JsNumber.order (Timetable.parseTime a) (Timetable.parseTime b) = Eq ->
    Timetable.compareTimes a b = Eq
    /\ JsArray.precedes a b (Timetable.sortedTimes data).
Proof.
  intros data a b _ Hab Htie.
  assert (Hcmp : Timetable.compareTimes a b = Eq)
    by now rewrite compareTimes_order.
  split; [exact Hcmp|].
  apply sort_keeps_order; [|exact Hab]. rewrite Hcmp. discriminate.
Qed.

Lemma tied_columns_keep_their_order_witness :
  JsArray.precedes "9:00 - 10:00" "9:00 - 9:30"
    (Timetable.sortedTimes
       [("Monday", [("10:00 - 11:00", "Phys (R2)");
                    ("9:00 - 10:00", "Math (R1)")]);
        ("Friday", [("9:00 - 9:30", "Lab (R3)")])]).
Proof.
  apply (tied_columns_keep_their_order
           [("Monday", [("10:00 - 11:00", "Phys (R2)");
                        ("9:00 - 10:00", "Math (R1)")]);
            ("Friday", [("9:00 - 9:30", "Lab (R3)")])]).
  - intros t Ht. vm_compute in Ht.
    destruct Ht as [<-|[<-|[<-|[]]]]; vm_compute; reflexivity.
  - exists ["10:00 - 11:00"], [], []. reflexivity.
  - vm_compute. reflexivity.
Defined.

(** ** The markup of the table *)

Section Markup.
Import Timetable.

(** A loop that appends one piece for each element appends the pieces in
    the order of the elements. *)
Lemma fold_left_pieces {B} (step : string -> B -> string)
      (f : B -> string) (l : list B) (acc : string) :
  (forall html x, step html x = html ++ f x) ->
  fold_left step l acc
  = acc ++ fold_right (fun x rest => f x ++ rest) "" l.
Proof.
  intro Hstep. revert acc. induction l as [|x l IH]; intro acc; simpl.
  - now rewrite append_nil_r.
  - rewrite IH, Hstep. apply append_assoc.
Qed.

Lemma occursIn_piece {B} (f : B -> string) (l : list B) (x : B) :
  In x l ->
  Page.occursIn (f x) (fold_right (fun x rest => f x ++ rest) "" l).
Proof.
  induction l as [|y l IH]; simpl; [intros []|].
  intros [->|H].
  - exists "", (fold_right (fun x rest => f x ++ rest) "" l). reflexivity.
  - destruct (IH H) as (before & after & E).
    exists (f y ++ before), after. rewrite E. now rewrite !append_assoc.
Qed.

Lemma occursIn_trans (p q s : string) :
  Page.occursIn p q -> Page.occursIn q s -> Page.occursIn p s.
Proof.
  intros (b1 & a1 & ->) (b2 & a2 & ->).
  exists (b2 ++ b1), (a1 ++ a2). now rewrite !append_assoc.
Qed.

Lemma occursIn_after (p a s : string) :
  Page.occursIn p s -> Page.occursIn p (a ++ s).
Proof.
  intros (before & after & ->).
  exists (a ++ before), after. now rewrite !append_assoc.
Qed.

Lemma occursIn_before (p s b : string) :
  Page.occursIn p s -> Page.occursIn p (s ++ b).
Proof.
  intros (before & after & ->).
  exists before, (after ++ b). now rewrite !append_assoc.
Qed.

(** The row of a day: its name, then one cell for each column. *)
Lemma row_pieces (data : ScheduleMapping) (day : string) (acc : string) :
  fold_left
    (fun html time =>
       html ++ "<td>" ++ toString (cell data day time) ++ "</td>")
    (sortedTimes data) (acc ++ "<tr><th>" ++ day ++ "</th>") ++ "</tr>"
  = acc
    ++ ("<tr><th>" ++ day ++ "</th>")
    ++ fold_right
         (fun time rest =>
            ("<td>" ++ toString (cell data day time) ++ "</td>") ++ rest)
         "" (sortedTimes data)
    ++ "</tr>".
Proof.
  rewrite (fold_left_pieces _
             (fun time =>
                "<td>" ++ toString (cell data day time) ++ "</td>"))
    by reflexivity.
  now rewrite !append_assoc.
Qed.

(** The markup of data with a day, piece by piece. *)
Lemma renderTimetable_pieces (data : ScheduleMapping) :
  days data <> [] ->
  renderTimetable data
  = ("<table class=" ++ JsString.str1 JsString.dquote ++ "timetable"
     ++ JsString.str1 JsString.dquote
     ++ "><thead><tr><th>Day</th>")
    ++ fold_right (fun time rest => ("<th>" ++ time ++ "</th>") ++ rest)
                  "" (sortedTimes data)
    ++ "</tr></thead><tbody>"
    ++ fold_right
         (fun day rest =>
            (("<tr><th>" ++ day ++ "</th>")
             ++ fold_right
                  (fun time rest =>
                     ("<td>" ++ toString (cell data day time) ++ "</td>")
                     ++ rest)
                  "" (sortedTimes data)
             ++ "</tr>") ++ rest)
         "" (sortedDays data)
    ++ "</tbody></table>".
Proof.
  intro Hne. unfold renderTimetable.
  destruct (days data) as [|d ds] eqn:E; [contradiction|].
  cbn [List.length Nat.eqb]. cbv zeta.
  set (head := "<table class=" ++ _).
  rewrite (fold_left_pieces _
             (fun day =>
                ("<tr><th>" ++ day ++ "</th>")
                ++ fold_right
                     (fun time rest =>
                        ("<td>" ++ toString (cell data day time)
                         ++ "</td>") ++ rest)
                     "" (sortedTimes data)
                ++ "</tr>"))
    by (intros html day; apply row_pieces).
  rewrite (fold_left_pieces _ (fun time => "<th>" ++ time ++ "</th>"))
    by reflexivity.
  now rewrite !append_assoc.
Qed.

End Markup.

(** X12.  The texts of the data are put into the markup as they are, with
    no character of them escaped: for a label stored under a time slot of
    a day, the markup of the table holds the name of the day in the header
    cell of a row, the time slot in a header cell and the label in a
    cell. *)
Theorem markup_holds_texts_verbatim :
  forall (data : Timetable.ScheduleMapping) (day time label : string)
         (slots : JsObject.t string),
    JsObject.get data day = Some slots ->
    JsObject.get slots time = Some label ->
    Page.occursIn ("<tr><th>" ++ day ++ "</th>")
                  (Timetable.renderTimetable data)
    /\ Page.occursIn ("<th>" ++ time ++ "</th>")
                     (Timetable.renderTimetable data)
    /\ Page.occursIn ("<td>" ++ label ++ "</td>")
                     (Timetable.renderTimetable data).
Proof.
  intros data day time label slots Hslots Hlabel.
  assert (Hday : In day (Timetable.sortedDays data)).
  { apply sortedDays_In, get_keys. now exists slots. }
  assert (Htime : In time (Timetable.sortedTimes data)).
  { apply sortedTimes_In. exists day, slots. split; [exact Hslots|].
    apply get_keys. now exists label. }
  assert (Hcell :
            Timetable.toString (Timetable.cell data day time) = label).
  { unfold Timetable.cell, Timetable.slotsOf. rewrite Hslots, Hlabel.
    destruct label; reflexivity. }
  assert (Hne : Timetable.days data <> []).
  { intro E. apply sortedDays_In in Hday. now rewrite E in Hday. }
  rewrite (renderTimetable_pieces data Hne).
  set (cells := fun day =>
         fold_right
           (fun time rest =>
              ("<td>" ++ Timetable.toString (Timetable.cell data day time)
               ++ "</td>") ++ rest)
           "" (Timetable.sortedTimes data)).
  set (row := fun day => ("<tr><th>" ++ day ++ "</th>") ++ cells day
                         ++ "</tr>").
  pose proof (occursIn_piece row _ _ Hday) as Hrow.
  pose proof (occursIn_piece
                (fun time =>
                   "<td>" ++ Timetable.toString
                               (Timetable.cell data day time) ++ "</td>")
                _ _ Htime) as Hcells.
  cbv beta in Hcells. rewrite Hcell in Hcells. fold (cells day) in Hcells.
  split; [|split].
  - apply occursIn_after, occursIn_after, occursIn_after, occursIn_before.
    refine (occursIn_trans _ _ _ _ Hrow).
    exists "", (cells day ++ "</tr>"). reflexivity.
  - apply occursIn_after, occursIn_before.
    exact (occursIn_piece (fun time => "<th>" ++ time ++ "</th>")
                          _ _ Htime).
  - apply occursIn_after, occursIn_after, occursIn_after, occursIn_before.
    refine (occursIn_trans _ _ _ _ Hrow).
    apply occursIn_after, occursIn_before. exact Hcells.
Qed.

Lemma markup_holds_texts_verbatim_witness :
  Page.occursIn ("<tr><th>" ++ "Monday" ++ "</th>")
                (Timetable.renderTimetable Examples.tuesdayMonday)
  /\ Page.occursIn ("<th>" ++ "10:00 - 11:00" ++ "</th>")
                   (Timetable.renderTimetable Examples.tuesdayMonday)
  /\ Page.occursIn ("<td>" ++ "Phys (R2)" ++ "</td>")
                   (Timetable.renderTimetable Examples.tuesdayMonday).
Proof.
  apply (markup_holds_texts_verbatim Examples.tuesdayMonday "Monday"
           "10:00 - 11:00" "Phys (R2)" [("10:00 - 11:00", "Phys (R2)")]);
    reflexivity.
Defined.

(** ** What the key of a column reads *)

Section KeyFacts.
Import JsString JsNumber Timetable.

Lemma split_from_whole (sep : ascii) (s : string) :
  includes sep s = false -> split_from sep s = (s, []).
Proof.
  induction s as [|c s IH]; simpl; [reflexivity|].
  intro H. apply orb_false_iff in H. destruct H as [Hc Hs].
  now rewrite (IH Hs), Hc.
Qed.

Lemma split_from_first_clean (sep : ascii) (s : string) :
  includes sep (fst (split_from sep s)) = false.
Proof.
  induction s as [|c s IH]; simpl; [reflexivity|].
  destruct (split_from sep s) as [x r].
  destruct (Ascii.eqb c sep) eqn:E; simpl; [reflexivity|].
  simpl in IH. now rewrite E, IH.
Qed.

Lemma trimStart_clean (c : ascii) (s : string) :
  includes c s = false -> includes c (trimStart s) = false.
Proof.
  induction s as [|x s IH]; simpl; [reflexivity|].
  intro H. destruct (isWhiteSpace x); [|exact H].
  apply orb_false_iff in H. now apply IH.
Qed.

Lemma trimEnd_clean (c : ascii) (s : string) :
  includes c s = false -> includes c (trimEnd s) = false.
Proof.
  induction s as [|x s IH]; simpl; [reflexivity|].
  intro H. apply orb_false_iff in H. destruct H as [Hx Hs].
  specialize (IH Hs). destruct (trimEnd s) as [|y r].
  - destruct (isWhiteSpace x); simpl; [reflexivity|].
    now rewrite Hx.
  - cbn [includes] in *. now rewrite Hx, IH.
Qed.

Lemma replace_clean (c pat : ascii) (by_ s : string) :
  includes c by_ = false -> includes c s = false ->
  includes c (replace pat by_ s) = false.
Proof.
  intro Hby. induction s as [|x s IH]; simpl; [reflexivity|].
  intro H. apply orb_false_iff in H. destruct H as [Hx Hs].
  destruct (Ascii.eqb x pat).
  - now rewrite includes_app, Hby, Hs.
  - simpl. now rewrite Hx, IH.
Qed.

Lemma order_refl (x : number) : order x x = Eq.
Proof.
  unfold order. destruct x as [s|s| |s m e]; simpl; try reflexivity.
  - now destruct s.
  - destruct s; rewrite Z.compare_refl, Pos.compare_cont_refl; reflexivity.
Qed.

(** A rounded quotient has the sign that it was asked for, so that one
    asked for without a sign is not below zero. *)
Lemma binary_round_aux_not_below_zero (m e : Z) (l : location) :
  sign (binary_round_aux prec emax false m e l) <> Lt.
Proof.
  unfold binary_round_aux.
  destruct (shr_fexp prec emax m e l) as [mrs' e'].
  destruct (shr_fexp prec emax _ e' loc_Exact) as [mrs'' e''].
  destruct (shr_m mrs''); [discriminate| |discriminate].
  destruct (e'' <=? emax - prec)%Z; discriminate.
Qed.

Lemma ofDecimal_not_below_zero (m : N) (e10 : Z) :
  sign (ofDecimal false m e10) <> Lt.
Proof.
  unfold ofDecimal. destruct m as [|p]; [discriminate|].
  unfold SFdiv.
  destruct (SFdiv_core_binary _ _ _ _ _ _) as [[mz ez] lz].
  apply binary_round_aux_not_below_zero.
Qed.

Lemma unsigned_literal_not_below_zero (s : string) :
  sign (strUnsignedDecimalLiteral false s) <> Lt.
Proof.
  unfold strUnsignedDecimalLiteral.
  destruct (String.prefix "Infinity" s); [discriminate|].
  destruct (readDigits 0 0 s) as [[i ni] s1].
  assert (Hplain :
            sign match ni with
                 | O => NaN
                 | S _ => ofDecimal false i (exponentPart s1)
                 end <> Lt).
  { destruct ni; [discriminate|apply ofDecimal_not_below_zero]. }
  destruct s1 as [|c s2]; [exact Hplain|].
  destruct (Ascii.eqb_spec c ".") as [->|Hc].
  - destruct (readDigits i 0 s2) as [[m nf] s3].
    destruct ni, nf; try apply ofDecimal_not_below_zero. discriminate.
  - destruct c as [[] [] [] [] [] [] [] []]; try exact Hplain.
    now contradiction Hc.
Qed.

Lemma parseFloat_not_below_zero (s : string) :
  includes "-" s = false -> sign (parseFloat s) <> Lt.
Proof.
  intro H. apply (trimStart_clean "-") in H. unfold parseFloat.
  destruct (trimStart s) as [|c r];
    [apply unsigned_literal_not_below_zero|].
  destruct (Ascii.eqb_spec c "-") as [->|Hm].
  - simpl in H. discriminate.
  - destruct (Ascii.eqb_spec c "+") as [->|Hp];
      [apply unsigned_literal_not_below_zero|].
    destruct c as [[] [] [] [] [] [] [] []];
      try apply unsigned_literal_not_below_zero.
    now contradiction Hm.
Qed.

End KeyFacts.

(** X13.  The key of a column reads nothing after the first hyphen of the
    label: a label has the key of the text before its first hyphen, so
    that two labels with one start and different ends tie in the order of
    the columns. *)
Theorem key_ignores_the_end_time :
  forall start end1 end2 : string,
    JsString.includes "-" start = false ->
    Timetable.parseTime (start ++ "-" ++ end1) = Timetable.parseTime start
    /\ Timetable.compareTimes (start ++ "-" ++ end1)
                              (start ++ "-" ++ end2) = Eq.
Proof.
  intros start end1 end2 H.
  assert (Hkey : forall rest,
             Timetable.parseTime (start ++ "-" ++ rest)
             = Timetable.parseTime start).
  { intro rest. rewrite !parseTime_no_catch.
    change ("-" ++ rest) with (String "-" rest).
    now rewrite (split_from_first _ _ _ H), (split_from_whole _ _ H). }
  split; [apply Hkey|].
  rewrite compareTimes_order, !Hkey. apply order_refl.
Qed.

Lemma key_ignores_the_end_time_witness :
  Timetable.parseTime ("9:00 " ++ "-" ++ " 10:00")
  = Timetable.parseTime "9:00 "
  /\ Timetable.compareTimes ("9:00 " ++ "-" ++ " 10:00")
                            ("9:00 " ++ "-" ++ " 9:30") = Eq.
Proof.
  apply (key_ignores_the_end_time "9:00 " " 10:00" " 9:30"). reflexivity.
Defined.

(** X14.  The key of a column is never below zero: the text that
    [parseFloat] reads ends before the first hyphen of the label, so that
    it has no minus sign, and a label that starts with one has the key
    [NaN]. *)
Theorem key_is_never_negative :
  forall t : string,
    JsNumber.sign (Timetable.parseTime t) <> Lt
    /\ JsNumber.isNaN (Timetable.parseTime ("-" ++ t)) = true.
Proof.
  intro t. split.
  - rewrite parseTime_no_catch. apply parseFloat_not_below_zero.
    apply replace_clean; [reflexivity|].
    apply trimEnd_clean, trimStart_clean, split_from_first_clean.
  - rewrite parseTime_no_catch.
    change ("-" ++ t) with (String "-" t). simpl JsString.split_from.
    destruct (JsString.split_from "-" t). reflexivity.
Qed.

(** ** More on the exported file *)

Section FileFacts.
Import JsString Csv.

Lemma countNewlines_none (s : string) :
  includes newline s = false -> countNewlines s = 0.
Proof.
  induction s as [|c s IH]; simpl; [reflexivity|].
  intro H. apply orb_false_iff in H. destruct H as [-> Hs].
  now rewrite IH.
Qed.

Lemma trimEnd_idempotent (s : string) : trimEnd (trimEnd s) = trimEnd s.
Proof.
  induction s as [|c s IH]; [reflexivity|]. cbn [trimEnd].
  destruct (trimEnd s) as [|y r] eqn:E.
  - destruct (isWhiteSpace c) eqn:W; [reflexivity|].
    unfold str1. cbn [trimEnd]. now rewrite W.
  - cbn [trimEnd]. cbn [trimEnd] in IH. now rewrite IH.
Qed.

(** What [trimStart] returns does not start with white space. *)
Lemma trimStart_head (s : string) :
  match trimStart s with
  | EmptyString => True
  | String c _ => isWhiteSpace c = false
  end.
Proof.
  induction s as [|c s IH]; simpl; [exact I|].
  destruct (isWhiteSpace c) eqn:W; [exact IH|exact W].
Qed.

Lemma trimStart_trimEnd (c : ascii) (s : string) :
  isWhiteSpace c = false ->
  trimStart (trimEnd (String c s)) = trimEnd (String c s).
Proof.
  intro W. cbn [trimEnd]. destruct (trimEnd s).
  - rewrite W. unfold str1. cbn [trimStart]. now rewrite W.
  - cbn [trimStart]. now rewrite W.
Qed.

Lemma trim_idempotent (s : string) : trim (trim s) = trim s.
Proof.
  unfold trim. pose proof (trimStart_head s) as H.
  destruct (trimStart s) as [|c r]; [reflexivity|].
  rewrite (trimStart_trimEnd c r H). apply trimEnd_idempotent.
Qed.

End FileFacts.

(** X15.  Two rows of cells that are written as one line have the same
    fields: the line of a row with a cell tells its fields apart,
    whatever they hold, newlines too.  For the lines of the handler these
    fields are the trimmed texts of the cells. *)
Theorem one_line_comes_from_one_row :
  forall row1 row2 : list string,
    row1 <> [] -> row2 <> [] ->
    (JsString.join "," (map Csv.escapeField row1)
     = JsString.join "," (map Csv.escapeField row2) ->
     row1 = row2)
    /\ (JsString.join "," (map Csv.cellField row1)
        = JsString.join "," (map Csv.cellField row2) ->
        map JsString.trim row1 = map JsString.trim row2).
Proof.
  intros row1 row2 H1 H2.
  assert (Hfields : forall r1 r2 : list string,
             r1 <> [] -> r2 <> [] ->
             JsString.join "," (map Csv.escapeField r1)
             = JsString.join "," (map Csv.escapeField r2) ->
             r1 = r2).
  { intros r1 r2 N1 N2 E.
    rewrite <- (parse_row r1 N1), <- (parse_row r2 N2). now rewrite E. }
  split; [now apply Hfields|].
  intro E. apply Hfields.
  - destruct row1; [contradiction|discriminate].
  - destruct row2; [contradiction|discriminate].
  - unfold Csv.cellField in E. now rewrite !map_map.
Qed.

Lemma one_line_comes_from_one_row_witness :
  map JsString.trim [" a"; "b,c"] = map JsString.trim ["a "; "b,c"].
Proof.
  apply (one_line_comes_from_one_row [" a"; "b,c"] ["a "; "b,c"]);
    [discriminate|discriminate|reflexivity].
Defined.

(** X16.  The file has one newline for each row and one more for each
    newline of a field: it has as many newlines as rows exactly when no
    field has a newline. *)
Theorem file_has_a_line_for_each_row :
  forall rows : list (list string),
    Csv.countNewlines (Csv.toCsv rows) = List.length rows
    <-> forall row f, In row rows -> In f row ->
                      JsString.includes JsString.newline f = false.
Proof.
  intro rows. split.
  - intros E row f Hrow Hf.
    destruct (JsString.includes JsString.newline f) eqn:N; [|reflexivity].
    pose proof (countNewlines_toCsv_field rows row f Hrow Hf N). lia.
  - induction rows as [|row rows IH]; intro H; [reflexivity|].
    rewrite toCsv_cons, !countNewlines_app.
    rewrite countNewlines_none, IH.
    + reflexivity.
    + intros r f Hr. apply H. now right.
    + apply includes_join. rewrite Forall_forall. intros f Hf.
      apply (H row); [now left|exact Hf].
Qed.

(** X17.  The handler writes the trimmed text of the cells, and trimming
    a trimmed text changes nothing: the file of a table is the file of
    the table of its trimmed cells, and two tables whose cells differ in
    the white space around their texts only give one file. *)
Theorem file_ignores_space_around_cells :
  forall table : list (list string),
    Csv.downloadCsv (Some (map (map JsString.trim) table))
    = Csv.downloadCsv (Some table)
    /\ forall other : list (list string),
         map (map JsString.trim) other = map (map JsString.trim) table ->
         Csv.downloadCsv (Some other) = Csv.downloadCsv (Some table).
Proof.
  intro table. split.
  - rewrite !downloadCsv_toCsv. do 2 f_equal.
    rewrite map_map. apply map_ext. intro row.
    rewrite map_map. apply map_ext. exact trim_idempotent.
  - intros other E. rewrite !downloadCsv_toCsv. now rewrite E.
Qed.
